(** * rename_zlibrary: a shallow embedding of the file renamer and its properties

    The program deletes or replaces a phrase in the names of the files of a
    directory.  Python strings are modelled as lists of Unicode code points,
    the compiled regular expressions of the [re] module as a small abstract
    syntax with the matching discipline of the backtracking engine (leftmost
    match, greedy repetition), the file system as a finite map from paths to
    nodes, and the script's effects in a state-and-exception monad that
    records every file-system call and every printed line. *)

From stdpp Require Import gmap list strings.
From Stdlib Require Import NArith.

Open Scope N_scope.
Open Scope nat_scope.

(** ** Strings *)

(** A Python [str] is a sequence of code points. *)
Abbreviation char := N (only parsing).
Abbreviation str := (list N) (only parsing).

(** ASCII literals, to write the strings of the source. *)
Definition lit (s : string) : str :=
  map Ascii.N_of_ascii (String.list_ascii_of_string s).

(** [str.isspace()] on one character, the regex category [\s] on a [str]
    pattern and the characters removed by [str.strip()] are one table in
    CPython (Py_UNICODE_ISSPACE). *)
Definition py_isspace (c : char) : bool :=
  ((0x09 <=? c) && (c <=? 0x0D))%N || ((0x1C <=? c) && (c <=? 0x20))%N
  || (c =? 0x85)%N || (c =? 0xA0)%N || (c =? 0x1680)%N
  || ((0x2000 <=? c) && (c <=? 0x200A))%N
  || (c =? 0x2028)%N || (c =? 0x2029)%N || (c =? 0x202F)%N
  || (c =? 0x205F)%N || (c =? 0x3000)%N.

Definition SPACE : char := 0x20%N.
Definition DOT : char := 0x2E%N.
Definition BACKSLASH : char := 0x5C%N.
Definition NBSP : char := 0xA0%N.
Definition NNBSP : char := 0x202F%N.

Fixpoint lstrip (s : str) : str :=
  match s with
  | c :: s' => if py_isspace c then lstrip s' else s
  | [] => []
  end.

Definition rstrip (s : str) : str := reverse (lstrip (reverse s)).

(** [str.strip()] with no argument. *)
Definition strip (s : str) : str := rstrip (lstrip s).

(** ** The Unicode tables the [re] and [unicodedata] modules consult

    They are data of the interpreter, not of the program: the development is
    parametric in them. *)
Record unicode_db := {
  u_lower : char -> char;          (* _sre.unicode_tolower *)
  u_iscased : char -> bool;        (* _sre.unicode_iscased *)
  u_casefix : char -> list char;   (* re._casefix._EXTRA_CASES, [] when absent *)
  u_nfkc : str -> str              (* unicodedata.normalize("NFKC", _) *)
}.

(** The tables restricted to ASCII letters; NFKC leaves an ASCII string as it
    is.  Used to run the model on the examples of the specification. *)
Definition ascii_db : unicode_db := {|
  u_lower := fun c => if ((0x41 <=? c) && (c <=? 0x5A))%N then (c + 32)%N else c;
  u_iscased := fun c =>
    (((0x41 <=? c) && (c <=? 0x5A)) || ((0x61 <=? c) && (c <=? 0x7A)))%N;
  u_casefix := fun _ => [];
  u_nfkc := fun s => s
|}.

(** ** Compiled patterns *)

(** A member of a bracketed class: a character or the category [\s]. *)
Inductive cset := CsChar (c : char) | CsSpace.

(** One-character matchers. *)
Inductive atom :=
  | ALit (c : char)          (* a literal, escaped or not *)
  | AIn (cl : list cset)     (* [ ... ] *)
  | ASpace.                  (* \s *)

(** Repetition: [x] or [x{n,}] (greedy); [x+] is [x{1,}]. *)
Inductive rep := Once | AtLeast (n : nat).

Record Pattern := {
  pat_ignorecase : bool;
  pat_pieces : list (atom * rep)
}.

Section Matching.
Context (db : unicode_db).

(** A literal [p] of the pattern against the character [c] of the text.
    Under IGNORECASE the compiler keeps an uncased literal as it is and
    compares the lower-cased text character with the lower-cased literal
    and its extra case equivalents otherwise. *)
Definition lit_accepts (ic : bool) (p c : char) : bool :=
  if ic && u_iscased db p then
    let lo := u_lower db p in
    existsb (N.eqb (u_lower db c)) (lo :: u_casefix db lo)
  else (c =? p)%N.

Definition cset_has (c : char) (m : cset) : bool :=
  match m with
  | CsChar p => (c =? p)%N
  | CsSpace => py_isspace c
  end.

Definition cset_cased (m : cset) : bool :=
  match m with
  | CsChar p => u_iscased db p
  | CsSpace => false
  end.

Definition cset_fold (m : cset) : list cset :=
  match m with
  | CsChar p => let lo := u_lower db p in map CsChar (lo :: u_casefix db lo)
  | CsSpace => [CsSpace]
  end.

(** A class against a character.  Under IGNORECASE the members are
    lower-cased when the class is compiled; the text character is
    lower-cased too only when some member is cased. *)
Definition class_accepts (ic : bool) (cl : list cset) (c : char) : bool :=
  if ic then
    let folded := flat_map cset_fold cl in
    if existsb cset_cased cl then existsb (cset_has (u_lower db c)) folded
    else existsb (cset_has c) folded
  else existsb (cset_has c) cl.

Definition accepts (ic : bool) (a : atom) (c : char) : bool :=
  match a with
  | ALit p => lit_accepts ic p c
  | AIn cl => class_accepts ic cl c
  | ASpace => py_isspace c
  end.

(** Length of the longest prefix of the text accepted by an atom. *)
Fixpoint run_length (ic : bool) (a : atom) (t : str) : nat :=
  match t with
  | c :: t' => if accepts ic a c then S (run_length ic a t') else 0
  | [] => 0
  end.

(** Greedy repetition: try [j] characters, then [j - 1], ... down to the
    minimum [n], and stop at the first count for which the rest of the
    pattern matches. *)
Fixpoint backtrack (rest : str -> option nat) (n : nat) (t : str) (j : nat)
  : option nat :=
  if j <? n then None
  else match rest (drop j t) with
       | Some m => Some (j + m)
       | None => match j with
                 | O => None
                 | S j' => backtrack rest n t j'
                 end
       end.

(** The match anchored at the head of the text: the number of characters
    it consumes. *)
Fixpoint match_here (ic : bool) (ps : list (atom * rep)) (t : str)
  : option nat :=
  match ps with
  | [] => Some 0
  | (a, Once) :: ps' =>
      match t with
      | c :: t' => if accepts ic a c then S <$> match_here ic ps' t' else None
      | [] => None
      end
  | (a, AtLeast n) :: ps' =>
      backtrack (match_here ic ps') n t (run_length ic a t)
  end.

(** [Pattern.search]: offset and length of the leftmost match. *)
Fixpoint search (ic : bool) (ps : list (atom * rep)) (t : str)
  : option (nat * nat) :=
  match match_here ic ps t with
  | Some n => Some (0, n)
  | None =>
      match t with
      | [] => None
      | _ :: t' =>
          match search ic ps t' with
          | Some (b, n) => Some (S b, n)
          | None => None
          end
      end
  end.

(** The loop of [Pattern.sub]: copy the text before the leftmost match,
    append the replacement computed from the matched text, go on after the
    match.  The loop ends when a match reaches the end of the text.  After
    an empty match the engine asks the next match to advance, which for
    these patterns means that the next character is copied and the search
    resumes behind it.  Every round consumes a character, so the length of
    the text bounds the number of rounds. *)
Fixpoint subx (fuel : nat) (ic : bool) (ps : list (atom * rep))
  (filter : str -> str) (t : str) : str :=
  match fuel with
  | O => t
  | S fuel' =>
      match search ic ps t with
      | None => t
      | Some (b, n) =>
          let m := take n (drop b t) in
          let rest := drop (b + n) t in
          take b t ++ filter m ++
            match rest with
            | [] => []
            | c :: rest' =>
                if (n =? 0)%nat then c :: subx fuel' ic ps filter rest'
                else subx fuel' ic ps filter rest
            end
      end
  end.

(** [Pattern.sub] on a whole text. *)
Definition sub (ic : bool) (ps : list (atom * rep)) (filter : str -> str)
  (t : str) : str :=
  subx (S (length t)) ic ps filter t.

End Matching.

(** ** Replacement templates

    [Pattern.sub] takes a replacement without a backslash as it is and
    parses any other one as a template (re._parser.parse_template, as of
    CPython 3.12).  The patterns of this program have no group, so of the
    group references only [\g<0>], the whole match, is valid. *)

Inductive exn := ReError | ValueError | OSError.

Inductive result (A : Type) := Ok (a : A) | Err (e : exn).
Arguments Ok {A} a.
Arguments Err {A} e.

Definition rbind {A B} (r : result A) (k : A -> result B) : result B :=
  match r with
  | Ok a => k a
  | Err e => Err e
  end.

Inductive titem := TChar (c : char) | TWhole.

Definition is_digit (c : char) : bool := ((0x30 <=? c) && (c <=? 0x39))%N.
Definition is_octdigit (c : char) : bool := ((0x30 <=? c) && (c <=? 0x37))%N.
Definition is_ascii_letter (c : char) : bool :=
  (((0x41 <=? c) && (c <=? 0x5A)) || ((0x61 <=? c) && (c <=? 0x7A)))%N.

Definition octval (ds : list char) : N :=
  fold_left (fun acc d => (acc * 8 + (d - 0x30))%N) ds 0%N.

(** The table ESCAPES of the parser: a, b, f, n, r, t, v and the backslash. *)
Definition escape_char (e : char) : option char :=
  if (e =? 0x61)%N then Some 0x07%N
  else if (e =? 0x62)%N then Some 0x08%N
  else if (e =? 0x66)%N then Some 0x0C%N
  else if (e =? 0x6E)%N then Some 0x0A%N
  else if (e =? 0x72)%N then Some 0x0D%N
  else if (e =? 0x74)%N then Some 0x09%N
  else if (e =? 0x76)%N then Some 0x0B%N
  else if (e =? 0x5C)%N then Some 0x5C%N
  else None.

Fixpoint parse_template (s : str) : option (list titem) :=
  match s with
  | [] => Some []
  | c :: s1 =>
      if negb (c =? BACKSLASH)%N then cons (TChar c) <$> parse_template s1
      else
        match s1 with
        | [] => None                        (* bad escape (end of pattern) *)
        | e :: s2 =>
            if (e =? 0x67)%N then           (* \g<name> *)
              match s2 with
              | lt :: s3 =>
                  if (lt =? 0x3C)%N then
                    (* the name must be a decimal number; a pattern without
                       groups has group 0 only *)
                    (fix zeros (u : str) (seen : bool) : option (list titem) :=
                       match u with
                       | [] => None         (* missing >, unterminated name *)
                       | z :: u' =>
                           if (z =? 0x30)%N then zeros u' true
                           else if (z =? 0x3E)%N && seen
                                then cons TWhole <$> parse_template u'
                                else None   (* bad or unknown group *)
                       end) s3 false
                  else None                 (* missing < *)
              | [] => None
              end
            else if (e =? 0x30)%N then      (* \0, \0o, \0oo: octal *)
              match s2 with
              | d1 :: s3 =>
                  if is_octdigit d1 then
                    match s3 with
                    | d2 :: s4 =>
                        if is_octdigit d2
                        then cons (TChar (N.land (octval [d1; d2]) 0xff))
                               <$> parse_template s4
                        else cons (TChar (octval [d1])) <$> parse_template s3
                    | [] => cons (TChar (octval [d1])) <$> parse_template s3
                    end
                  else cons (TChar 0%N) <$> parse_template s2
              | [] => Some [TChar 0%N]
              end
            else if is_digit e then         (* \ooo octal, else a group *)
              match s2 with
              | d1 :: d2 :: s4 =>
                  if is_digit d1 && is_octdigit e && is_octdigit d1
                     && is_octdigit d2 then
                    let v := octval [e; d1; d2] in
                    if (0xff <? v)%N then None
                    else cons (TChar v) <$> parse_template s4
                  else None                 (* invalid group reference *)
              | _ => None                   (* invalid group reference *)
              end
            else
              match escape_char e with
              | Some x => cons (TChar x) <$> parse_template s2
              | None =>
                  if is_ascii_letter e then None      (* bad escape *)
                  else (fun r => TChar c :: TChar e :: r) <$> parse_template s2
              end
        end
  end.

Definition expand_template (items : list titem) (m : str) : str :=
  flat_map (fun i => match i with TChar c => [c] | TWhole => m end) items.

Definition compile_template (repl : str) : result (str -> str) :=
  if existsb (N.eqb BACKSLASH) repl then
    match parse_template repl with
    | Some items => Ok (expand_template items)
    | None => Err ReError
    end
  else Ok (fun _ => repl).

Section Program.
Context (db : unicode_db).

(** [pattern.sub(repl, text)]. *)
Definition pattern_sub (p : Pattern) (repl : str) (t : str) : result str :=
  rbind (compile_template repl) (fun filter =>
    Ok (sub db (pat_ignorecase p) (pat_pieces p) filter t)).

(** [pattern.search(text)] as a truth value. *)
Definition pattern_search (p : Pattern) (t : str) : bool :=
  bool_decide (is_Some (search db (pat_ignorecase p) (pat_pieces p) t)).

(** The module-level [re.sub(pattern, repl, text)] of [normalize_spaces]:
    no flags, a replacement without a backslash. *)
Definition re_sub (ps : list (atom * rep)) (repl : str) (t : str) : str :=
  sub db false ps (fun _ => repl) t.

(** *** The source, function by function *)

Definition HYPHENS : list char :=
  [0x2D; 0x2010; 0x2011; 0x2012; 0x2013; 0x2014; 0x2212; 0xFE63; 0xFF0D]%N.

(** The bracketed classes [HYPHENS_CLASS] and [SPACES_CLASS]. *)
Definition HYPHENS_CLASS : list cset := map CsChar HYPHENS.
Definition SPACES_CLASS : list cset := [CsSpace; CsChar NBSP; CsChar NNBSP].

Definition normalize_spaces (name : str) : str :=
  let name := re_sub [(AIn SPACES_CLASS, AtLeast 1)] (lit " ") name in
  let name := re_sub [(ASpace, AtLeast 2)] (lit " ") name in
  let name := re_sub [(ASpace, AtLeast 1); (ALit DOT, Once)] (lit ".") name in
  strip name.

(** [re.compile(re.escape(phrase), flags)]: every character a literal. *)
Definition escaped (phrase : str) : list (atom * rep) :=
  map (fun ch => (ALit ch, Once)) phrase.

(** One round of the loop of [build_pattern]. *)
Definition loose_piece (ch : char) : atom * rep :=
  if existsb (N.eqb ch) HYPHENS then (AIn HYPHENS_CLASS, Once)
  else if py_isspace ch || existsb (N.eqb ch) [NBSP; NNBSP]
       then (AIn SPACES_CLASS, Once)
       else (ALit ch, Once).

Definition build_pattern (phrase : str) (ignore_case loose : bool) : Pattern :=
  if negb loose then
    {| pat_ignorecase := ignore_case; pat_pieces := escaped phrase |}
  else
    let p := u_nfkc db phrase in
    {| pat_ignorecase := ignore_case; pat_pieces := map loose_piece p |}.

Definition propose_new_name (name : str) (pattern : Pattern) (mode : str)
  (replacement : str) : result str :=
  rbind (pattern_sub pattern
           (if decide (mode = lit "delete") then [] else replacement) name)
        (fun new => Ok (normalize_spaces new)).

End Program.

(** ** Paths and the file system *)

(** A [pathlib.Path] in resolved form: the components below ["/"]. *)
Abbreviation path := (list (list N)) (only parsing).

Definition SLASH : char := 0x2F%N.

(** [p.name]: the last component, empty for the root. *)
Definition name_of (p : path) : str := default [] (last p).

(** [p.parent]. *)
Definition parent (p : path) : path := removelast p.

(** [p.with_name(name)] raises ValueError when the path has no name and when
    the new name is empty, is ["."] or holds a separator. *)
Definition with_name (p : path) (name : str) : result path :=
  if bool_decide (name_of p = []) then Err ValueError
  else if bool_decide (name = []) || existsb (N.eqb SLASH) name
          || bool_decide (name = lit ".")
       then Err ValueError
       else Ok (parent p ++ [name]).

Inductive node := File (content : N) | Dir.

Global Instance node_eq_dec : EqDecision node.
Proof. solve_decision. Defined.

(** The lines the script prints, one constructor per [print] of [main]. *)
Inductive msg :=
  | MNotDir (root : path)
  | MRefuse (root : path)
  | MMatch (name : str)
  | MNoMatch
  | MScanned (total : nat) (root : path)
  | MNoChanges
  | MDryRunBanner
  | MSkip (dst src : str)
  | MRename (src dst : str)
  | MError (src : str) (e : exn)
  | MDryRun (src dst : str)
  | MSummary (checked matched changed collisions errors : nat)
  | MDryRunFooter.

(** What the script does to the world, in order. *)
Inductive event :=
  | EScan (root : path) (recursive : bool)   (* root.glob("*"), root.rglob("*") *)
  | ERename (src dst : path)                 (* src.rename(dst) is called *)
  | EPrint (m : msg).

Record world := {
  w_fs : gmap (list (list N)) node;
  w_log : list event
}.

(** ** The monad of the script: state, exceptions and [sys.exit] *)

Inductive outcome (A : Type) :=
  | Ret (a : A)
  | Raised (e : exn)
  | Exited (code : Z).
Arguments Ret {A} a.
Arguments Raised {A} e.
Arguments Exited {A} code.

Definition M (A : Type) : Type := world -> outcome A * world.

Global Instance M_ret : MRet M := fun A a w => (Ret a, w).

Global Instance M_bind : MBind M := fun A B k c w =>
  match c w with
  | (Ret a, w') => k a w'
  | (Raised e, w') => (Raised e, w')
  | (Exited n, w') => (Exited n, w')
  end.

Definition lift {A} (r : result A) : M A := fun w =>
  match r with
  | Ok a => (Ret a, w)
  | Err e => (Raised e, w)
  end.

Definition sys_exit {A} (code : Z) : M A := fun w => (Exited code, w).

(** The world after one more event. *)
Definition log (e : event) (w : world) : world :=
  {| w_fs := w_fs w; w_log := w_log w ++ [e] |}.

Definition emit (e : event) : M unit := fun w => (Ret tt, log e w).

Definition print (m : msg) : M unit := emit (EPrint m).

Definition pass : M unit := mret tt.

(** [try: c except Exception: ...]: the exception becomes a value;
    [SystemExit] is not an [Exception] and goes through. *)
Definition try {A} (c : M A) : M (result A) := fun w =>
  match c w with
  | (Ret a, w') => (Ret (Ok a), w')
  | (Raised e, w') => (Ret (Err e), w')
  | (Exited n, w') => (Exited n, w')
  end.

(** *** File-system calls *)

Definition path_exists (p : path) : M bool := fun w =>
  (Ret (bool_decide (p = []) || bool_decide (is_Some (w_fs w !! p))), w).

Definition is_dir (p : path) : M bool := fun w =>
  (Ret (bool_decide (p = []) || bool_decide (w_fs w !! p = Some Dir)), w).

(** The paths a scan of [root] visits: its children, or with [recursive]
    everything below it. *)
Definition in_scope (recursive : bool) (root p : path) : bool :=
  bool_decide (take (length root) p = root)
  && (if recursive then length root <? length p
      else length p =? S (length root)).

Definition is_file_entry (e : list (list N) * node) : bool :=
  match e.2 with
  | File _ => true
  | Dir => false
  end.

(** [iter_files]: the regular files in scope, in the order the directory
    listing gives them. *)
Definition iter_files_of (fs : gmap (list (list N)) node) (root : path)
  (recursive : bool) : list path :=
  map fst (filter (fun e => is_file_entry e && in_scope recursive root e.1 = true)
             (map_to_list fs)).

Definition list_files (root : path) (recursive : bool) : M (list path) :=
  fun w => (Ret (iter_files_of (w_fs w) root recursive), w).

Definition iter_files (root : path) (recursive : bool) : M (list path) :=
  emit (EScan root recursive);; list_files root recursive.

(** Moving a subtree: the key of an entry after [src] has become [dst]. *)
Definition rekey (src dst k : path) : path :=
  if bool_decide (take (length src) k = src) then dst ++ drop (length src) k
  else k.

Definition has_children (fs : gmap (list (list N)) node) (p : path) : bool :=
  bool_decide (Exists (fun e => in_scope false p e.1 = true) (map_to_list fs)).

(** rename(2) on a POSIX system: the source must exist and the directory of
    the target too; a file silently replaces a file, a directory an empty
    directory. *)
Definition rename_fs (fs : gmap (list (list N)) node) (src dst : path)
  : result (gmap (list (list N)) node) :=
  match fs !! src with
  | None => Err OSError
  | Some n =>
      if bool_decide (src = dst) then Ok fs
      else if negb (bool_decide (parent dst = [])
                    || bool_decide (fs !! parent dst = Some Dir))
      then Err OSError
      else
        match n, fs !! dst with
        | File _, Some Dir => Err OSError
        | File _, _ => Ok (<[dst := n]> (delete src fs))
        | Dir, Some (File _) => Err OSError
        | Dir, Some Dir =>
            if has_children fs dst then Err OSError
            else Ok (list_to_map
                       (map (fun e => (rekey src dst e.1, e.2)) (map_to_list fs)))
        | Dir, None =>
            if bool_decide (take (length src) dst = src) then Err OSError
            else Ok (list_to_map
                       (map (fun e => (rekey src dst e.1, e.2)) (map_to_list fs)))
        end
  end.

Definition sys_rename (src dst : path) : M unit := fun w =>
  match rename_fs (w_fs w) src dst with
  | Ok fs' => (Ret tt, {| w_fs := fs'; w_log := w_log w |})
  | Err e => (Raised e, w)
  end.

Definition rename (src dst : path) : M unit :=
  emit (ERename src dst);; sys_rename src dst.

(** ** The command: planning, the safety gate, execution *)

(** The parsed command line, after [prompt_if_missing] has filled it in. *)
Record Args := {
  target : path;
  phrase : str;
  mode : str;
  replacement : str;
  ignore_case : bool;
  recursive : bool;
  apply : bool;
  force : bool;
  loose : bool;
  list_matches : bool
}.

(** What the interpreter finds around the script: [Path.resolve], which may
    raise (here: [None]), and [Path.home()]. *)
Record Env := {
  env_resolve : path -> option path;
  env_home : path
}.

Record counters := {
  collisions : nat;
  errors : nat;
  renamed : nat
}.

(** [collisions = 0], [errors = 0], [renamed = 0]. *)
Definition no_counts : counters :=
  {| collisions := 0; errors := 0; renamed := 0 |}.

(** [collisions += 1], [renamed += 1], [errors += 1]. *)
Definition collided (k : counters) : counters :=
  {| collisions := S (collisions k); errors := errors k; renamed := renamed k |}.

Definition renamed_one (k : counters) : counters :=
  {| collisions := collisions k; errors := errors k; renamed := S (renamed k) |}.

Definition failed (k : counters) : counters :=
  {| collisions := collisions k; errors := S (errors k); renamed := renamed k |}.

Section Command.
Context (db : unicode_db) (env : Env).

(** The loop of [collect_changes] over the files of the scan. *)
Fixpoint collect_loop (files : list path) (pattern : Pattern) (mode : str)
  (replacement : str) (changes : list (path * path)) (total_checked : nat)
  : result (list (path * path) * nat) :=
  match files with
  | [] => Ok (changes, total_checked)
  | p :: files' =>
      rbind (propose_new_name db (name_of p) pattern mode replacement)
        (fun new_name =>
           if bool_decide (new_name ≠ name_of p) then
             rbind (with_name p new_name) (fun dst =>
               collect_loop files' pattern mode replacement
                 (changes ++ [(p, dst)]) (S total_checked))
           else
             collect_loop files' pattern mode replacement changes
               (S total_checked))
  end.

Definition collect_changes (root : path) (recursive : bool)
  (pattern : Pattern) (mode : str) (replacement : str)
  : M (list (path * path) * nat) :=
  files ← iter_files root recursive;
  lift (collect_loop files pattern mode replacement [] 0).

Definition resolve (p : path) : M path :=
  lift (match env_resolve env p with
        | Some r => Ok r
        | None => Err OSError
        end).

Definition is_dangerous_root (target home : path) : bool :=
  match env_resolve env target with
  | None => false
  | Some resolved =>
      bool_decide (resolved = []) || bool_decide (resolved = home)
  end.

(** The [--list-matches] pass. *)
Fixpoint print_matches (files : list path) (pattern : Pattern)
  (matched_any : bool) : M bool :=
  match files with
  | [] => mret matched_any
  | p :: files' =>
      if pattern_search db pattern (name_of p) then
        print (MMatch (name_of p));; print_matches files' pattern true
      else print_matches files' pattern matched_any
  end.

(** The loop of [main] over the plan. *)
Fixpoint execute (apply : bool) (changes : list (path * path))
  (k : counters) : M counters :=
  match changes with
  | [] => mret k
  | (src, dst) :: changes' =>
      dst_exists ← path_exists dst;
      if dst_exists && bool_decide (dst ≠ src) then
        print (MSkip (name_of dst) (name_of src));;
        execute apply changes' (collided k)
      else if apply then
        r ← try (rename src dst);
        match r with
        | Ok _ =>
            print (MRename (name_of src) (name_of dst));;
            execute apply changes' (renamed_one k)
        | Err e =>
            print (MError (name_of src) e);;
            execute apply changes' (failed k)
        end
      else
        print (MDryRun (name_of src) (name_of dst));;
        execute apply changes' k
  end.

(** [main] once the plan is there: the report of the scan, the execution
    loop and the summary. *)
Definition execute_and_report (root : path) (args : Args)
  (plan : list (path * path) * nat) : M unit :=
  print (MScanned plan.2 root);;
  if bool_decide (plan.1 = []) then print MNoChanges
  else
    (if apply args then pass else print MDryRunBanner);;
    k ← execute (apply args) plan.1 no_counts;
    let changed_if_apply :=
      if apply args then renamed k
      else length plan.1 - collisions k in
    print (MSummary plan.2 (length plan.1) changed_if_apply
             (collisions k) (errors k));;
    if apply args then pass else print MDryRunFooter.

(** [main] from the compilation of the pattern on: the listing pass, the
    plan, and the above. *)
Definition plan_and_execute (root : path) (args : Args) : M unit :=
  let pattern :=
    build_pattern db (phrase args) (ignore_case args) (loose args) in
  (if list_matches args then
     files ← iter_files root (recursive args);
     matched_any ← print_matches files pattern false;
     if matched_any : bool then pass else print MNoMatch
   else pass);;
  plan ← collect_changes root (recursive args) pattern (mode args)
           (replacement args);
  execute_and_report root args plan.

Definition main (args : Args) : M unit :=
  root ← resolve (target args);
  root_is_dir ← is_dir root;
  if negb root_is_dir then print (MNotDir root);; sys_exit 1
  else
    home ← resolve (env_home env);
    if is_dangerous_root root home && negb (force args) then
      print (MRefuse root);; sys_exit 2
    else plan_and_execute root args.

End Command.

(** A run starts with an empty log. *)
Definition start (fs : gmap (list (list N)) node) : world :=
  {| w_fs := fs; w_log := [] |}.

(** ** Actions that leave the file system alone *)

Definition read_only (e : event) : Prop :=
  match e with
  | ERename _ _ => False
  | _ => True
  end.

(** The action changes no file and calls no rename, whatever it returns. *)
Definition frame {A} (c : M A) : Prop :=
  forall w,
    w_fs (c w).2 = w_fs w
    /\ exists evs, w_log (c w).2 = w_log w ++ evs /\ Forall read_only evs.

(** The action only adds to the log. *)
Definition appends {A} (c : M A) : Prop :=
  forall w, exists evs, w_log (c w).2 = w_log w ++ evs.

(** The first thing the action does is scan [root]. *)
Definition scans_first {A} (root : path) (recursive : bool) (c : M A) : Prop :=
  forall w, exists evs, w_log (c w).2 = w_log w ++ EScan root recursive :: evs.


(** *** Concrete data for the examples *)


Definition books : path := [lit "books"].

Definition demo_fs : gmap (list (list N)) node :=
  list_to_map
    [ (books, Dir);
      (books ++ [lit "a (Z-Library).pdf"], File 1);
      (books ++ [lit "a  (Z-Library).pdf"], File 2);
      (books ++ [lit "b.pdf"], File 3) ].


(** ** The Normalizer in the words of the specification

    Four steps: every spacing character becomes an ASCII space, runs of
    spaces collapse to one, a space immediately before a period is removed,
    the ends are stripped.  The spacing characters of the source are those
    of its class [SPACES_CLASS], that is every character of [py_isspace]. *)

Definition to_space (c : char) : char := if py_isspace c then SPACE else c.

(** The same step for the three spacing characters the specification
    names. *)
Definition SPACING : list char := [SPACE; NBSP; NNBSP].


Definition starts_with (c : char) (s : str) : bool :=
  match s with
  | d :: _ => (d =? c)%N
  | [] => false
  end.

Fixpoint collapse_spaces (s : str) : str :=
  match s with
  | [] => []
  | c :: s' =>
      if (c =? SPACE)%N && starts_with SPACE s' then collapse_spaces s'
      else c :: collapse_spaces s'
  end.

Fixpoint drop_space_before_dot (s : str) : str :=
  match s with
  | [] => []
  | c :: s' =>
      if (c =? SPACE)%N && starts_with DOT s' then drop_space_before_dot s'
      else c :: drop_space_before_dot s'
  end.

Definition spec_normalize (s : str) : str :=
  strip (drop_space_before_dot (collapse_spaces (map to_space s))).

(** The non-spacing content of a name. *)
Definition ink (s : str) : str := filter (fun c => py_isspace c = false) s.

(** Every whitespace character of the text is an ASCII space, and is
    followed by a character that is not whitespace. *)
Fixpoint spaced (s : str) : Prop :=
  match s with
  | [] => True
  | c :: s' =>
      (py_isspace c = true ->
       c = SPACE /\ match s' with
                    | d :: _ => py_isspace d = false
                    | [] => True
                    end)
      /\ spaced s'
  end.

(** No ASCII space stands immediately before a period. *)
Fixpoint no_space_dot (s : str) : Prop :=
  match s with
  | [] => True
  | c :: s' => (c = SPACE -> starts_with DOT s' = false) /\ no_space_dot s'
  end.

(** A name the Normalizer has nothing to do on. *)
Definition normal (s : str) : Prop :=
  spaced s /\ no_space_dot s
  /\ (forall c, head s = Some c -> py_isspace c = false)
  /\ (forall c, last s = Some c -> py_isspace c = false).

(** An atom that accepts exactly the whitespace characters, as [\s] and the
    class [SPACES_CLASS] do without flags. *)
Definition ws_atom (db : unicode_db) (a : atom) : Prop :=
  forall c, accepts db false a c = py_isspace c.

(** ** Dash variants of a phrase *)



(** The case tables leave a character alone: it is not cased, it is its own
    lower case and it has no extra case equivalent.  This is how Unicode
    treats the dashes and the spaces of the two classes. *)
Definition db_plain (db : unicode_db) (p : char) : Prop :=
  u_iscased db p = false /\ u_lower db p = p /\ u_casefix db p = [].

Definition plain_classes (db : unicode_db) : Prop :=
  Forall (db_plain db) (HYPHENS ++ [NBSP; NNBSP]).

Definition plain_member (db : unicode_db) (m : cset) : Prop :=
  match m with
  | CsChar p => db_plain db p
  | CsSpace => True
  end.

(** A directory with one file whose name has no tag but two spaces. *)
Definition untagged_fs : gmap (list (list N)) node :=
  list_to_map [ (books, Dir); (books ++ [lit "a  b.pdf"], File 1) ].

(** A directory after a run: the tag is gone from every name. *)
Definition cleaned_fs : gmap (list (list N)) node :=
  list_to_map
    [ (books, Dir);
      (books ++ [lit "a.pdf"], File 1);
      (books ++ [lit "b c.pdf"], File 2) ].

Definition tag_pattern : Pattern :=
  build_pattern ascii_db (lit "(Z-Library)") false false.

(** The two tagged files of [demo_fs] and the name both would take. *)
Definition tagged_a : path := books ++ [lit "a (Z-Library).pdf"].
Definition tagged_b : path := books ++ [lit "a  (Z-Library).pdf"].
Definition untagged : path := books ++ [lit "a.pdf"].

(** An environment in which the demo directory is the caller's home. *)
Definition home_env : Env :=
  {| env_resolve := fun p => Some p; env_home := books |}.


(** ** Occurrences of a phrase *)

(** The phrase stands in the text, character for character. *)
Definition occurs (phrase t : str) : Prop :=
  exists pre post, t = pre ++ phrase ++ post.

(** What may stand in a text for the character [p] of a phrase when hyphens
    are interchangeable and whitespace characters are: any hyphen for a
    hyphen, any whitespace for a whitespace, the character itself
    otherwise. *)
Definition loosely (p c : char) : bool :=
  if existsb (N.eqb p) HYPHENS then existsb (N.eqb c) HYPHENS
  else if py_isspace p then py_isspace c
  else (c =? p)%N.

Definition occurs_loosely (phrase t : str) : Prop :=
  exists pre occ post,
    t = pre ++ occ ++ post /\ Forall2 (fun p c => loosely p c = true) phrase occ.

(** A replacement with every backslash doubled. *)
Definition double_backslashes (r : str) : str :=
  flat_map (fun c => if (c =? BACKSLASH)%N then [c; c] else [c]) r.

(** ** Reading the log *)

(** The [rename] calls and the printed lines of a stretch of the log. *)
Definition rename_calls (evs : list event) : list (path * path) :=
  omap (fun e => match e with ERename s d => Some (s, d) | _ => None end) evs.

Definition printed (evs : list event) : list msg :=
  omap (fun e => match e with EPrint m => Some m | _ => None end) evs.


(** A directory with a file whose whole name is the phrase. *)
Definition bare_fs : gmap (list (list N)) node :=
  list_to_map [ (books, Dir); (books ++ [lit "(Z-Library)"], File 1) ].


(** ** The matching pass *)

(** What [--list-matches] adds to the log: the scan, one line per file whose
    name the pattern finds, in the order of the scan, and a closing line
    when there is none. *)
Definition listing_log (db : unicode_db) (fs : gmap (list (list N)) node)
  (root : path) (recursive : bool) (pattern : Pattern) : list event :=
  let hits :=
    filter (fun p => pattern_search db pattern (name_of p) = true)
      (iter_files_of fs root recursive) in
  EScan root recursive
    :: map (fun p => EPrint (MMatch (name_of p))) hits
    ++ (if bool_decide (hits = []) then [EPrint MNoMatch] else []).

(** The command line with [--list-matches] given or not. *)
Definition set_list_matches (b : bool) (a : Args) : Args := {|
  target := target a; phrase := phrase a; mode := mode a;
  replacement := replacement a; ignore_case := ignore_case a;
  recursive := recursive a; apply := apply a; force := force a;
  loose := loose a; list_matches := b |}.

(** The summary lines among printed lines. *)
Definition summaries (ms : list msg) : list (nat * nat * nat * nat * nat) :=
  omap (fun m => match m with
                 | MSummary ch ma c co er => Some (ch, ma, c, co, er)
                 | _ => None
                 end) ms.

(** ** Actions that do not read the log *)

(** Started on two worlds with the same file system, the action ends the
    same way, leaves the same file system and adds the same events. *)
Definition log_blind {A} (c : M A) : Prop :=
  forall w1 w2, w_fs w1 = w_fs w2 ->
    exists o fs' evs,
      c w1 = (o, {| w_fs := fs'; w_log := w_log w1 ++ evs |})
      /\ c w2 = (o, {| w_fs := fs'; w_log := w_log w2 ++ evs |}).

(** ** Interactive prompting

    [prompt_if_missing] asks on the terminal for the options the command
    line left out.  The terminal is a console: the lines still to be read
    and the lines written so far. *)

(** The namespace [parse_args] returns.  An option without default is
    [None] when the command line does not give it. *)
Record Namespace := {
  ns_target : option (list N);
  ns_phrase : option (list N);
  ns_mode : option (list N);
  ns_replacement : list N;
  ns_ignore_case : bool;
  ns_recursive : bool;
  ns_apply : bool;
  ns_force : bool;
  ns_loose : bool;
  ns_list_matches : bool
}.

(** The prompts of [input] and the lines of [print], one constructor per
    string of the source. *)
Inductive prompt_line :=
  | PAskDir
  | PNotValidDir (p : list N)
  | PAskPhrase
  | PPhraseEmpty
  | PAskMode
  | PAskModeAgain
  | PAskReplacement.

Record console := {
  stdin : list (list N);
  stdout : list prompt_line
}.

(** [input] raises [EOFError] at the end of the input; [expanduser] raises
    [RuntimeError] when it cannot determine a home directory. *)
Inductive prompt_exn := EOFError | RuntimeError.

Definition P (A : Type) : Type := console -> (prompt_exn + A) * console.

Definition P_ret {A} (a : A) : P A := fun c => (inr a, c).

Definition P_bind {A B} (m : P A) (k : A -> P B) : P B := fun c =>
  match m c with
  | (inr a, c') => k a c'
  | (inl e, c') => (inl e, c')
  end.

(** The truth value of an option of the namespace: [None] and the empty
    string are false. *)
Definition truthy (o : option (list N)) : bool :=
  match o with
  | None | Some [] => false
  | Some (_ :: _) => true
  end.

Definition is_mode (m : list N) : bool :=
  bool_decide (m = lit "delete") || bool_decide (m = lit "replace").

(** [input(prompt)]: the prompt is written, then a line is read. *)
Definition input (q : prompt_line) : P (list N) := fun c =>
  match stdin c with
  | [] => (inl EOFError, {| stdin := []; stdout := stdout c ++ [q] |})
  | l :: rest => (inr l, {| stdin := rest; stdout := stdout c ++ [q] |})
  end.

Section Prompting.
(** What the interpreter and the operating system provide: the string of
    [Path(s).expanduser()], the test [p.exists() and p.is_dir()] on it, and
    [str.lower]. *)
Context (expanduser : list N -> option (list N))
        (is_valid_dir : list N -> bool)
        (lower : list N -> list N).

(** The loop on the directory: every round reads one line. *)
Fixpoint ask_target (lines : list (list N)) (out : list prompt_line)
  : (prompt_exn + list N) * console :=
  match lines with
  | [] => (inl EOFError, {| stdin := []; stdout := out ++ [PAskDir] |})
  | l :: rest =>
      match expanduser (strip l) with
      | None =>
          (inl RuntimeError, {| stdin := rest; stdout := out ++ [PAskDir] |})
      | Some p =>
          if is_valid_dir p
          then (inr p, {| stdin := rest; stdout := out ++ [PAskDir] |})
          else ask_target rest (out ++ [PAskDir; PNotValidDir p])
      end
  end.

(** The loop on the phrase. *)
Fixpoint ask_phrase (lines : list (list N)) (out : list prompt_line)
  : (prompt_exn + list N) * console :=
  match lines with
  | [] => (inl EOFError, {| stdin := []; stdout := out ++ [PAskPhrase] |})
  | l :: rest =>
      let s := strip l in
      if bool_decide (s ≠ [])
      then (inr s, {| stdin := rest; stdout := out ++ [PAskPhrase] |})
      else ask_phrase rest (out ++ [PAskPhrase; PPhraseEmpty])
  end.

(** The loop on the mode, entered with the first answer [m]. *)
Fixpoint ask_mode_again (m : list N) (lines : list (list N))
  (out : list prompt_line) : (prompt_exn + list N) * console :=
  if is_mode m then (inr m, {| stdin := lines; stdout := out |})
  else
    match lines with
    | [] => (inl EOFError, {| stdin := []; stdout := out ++ [PAskModeAgain] |})
    | l :: rest => ask_mode_again (lower (strip l)) rest (out ++ [PAskModeAgain])
    end.

Definition ask_mode : P (list N) :=
  P_bind (input PAskMode) (fun l c =>
    let m := lower (strip l) in
    ask_mode_again (if bool_decide (m = []) then lit "delete" else m)
      (stdin c) (stdout c)).

Definition set_target (p : list N) (a : Namespace) : Namespace := {|
  ns_target := Some p; ns_phrase := ns_phrase a; ns_mode := ns_mode a;
  ns_replacement := ns_replacement a; ns_ignore_case := ns_ignore_case a;
  ns_recursive := ns_recursive a; ns_apply := ns_apply a;
  ns_force := ns_force a; ns_loose := ns_loose a;
  ns_list_matches := ns_list_matches a |}.

Definition set_phrase (s : list N) (a : Namespace) : Namespace := {|
  ns_target := ns_target a; ns_phrase := Some s; ns_mode := ns_mode a;
  ns_replacement := ns_replacement a; ns_ignore_case := ns_ignore_case a;
  ns_recursive := ns_recursive a; ns_apply := ns_apply a;
  ns_force := ns_force a; ns_loose := ns_loose a;
  ns_list_matches := ns_list_matches a |}.

Definition set_mode (m : list N) (a : Namespace) : Namespace := {|
  ns_target := ns_target a; ns_phrase := ns_phrase a; ns_mode := Some m;
  ns_replacement := ns_replacement a; ns_ignore_case := ns_ignore_case a;
  ns_recursive := ns_recursive a; ns_apply := ns_apply a;
  ns_force := ns_force a; ns_loose := ns_loose a;
  ns_list_matches := ns_list_matches a |}.

Definition set_replacement (r : list N) (a : Namespace) : Namespace := {|
  ns_target := ns_target a; ns_phrase := ns_phrase a; ns_mode := ns_mode a;
  ns_replacement := r; ns_ignore_case := ns_ignore_case a;
  ns_recursive := ns_recursive a; ns_apply := ns_apply a;
  ns_force := ns_force a; ns_loose := ns_loose a;
  ns_list_matches := ns_list_matches a |}.

Definition prompt_if_missing (args : Namespace) : P Namespace :=
  P_bind (if truthy (ns_target args) then P_ret args
          else P_bind (fun c => ask_target (stdin c) (stdout c))
                 (fun p => P_ret (set_target p args)))
  (fun args =>
  P_bind (if truthy (ns_phrase args) then P_ret args
          else P_bind (fun c => ask_phrase (stdin c) (stdout c))
                 (fun s => P_ret (set_phrase s args)))
  (fun args =>
  P_bind (if truthy (ns_mode args) then P_ret args
          else P_bind ask_mode (fun m => P_ret (set_mode m args)))
  (fun args =>
  if bool_decide (ns_mode args = Some (lit "replace"))
     && bool_decide (ns_replacement args = [])
  then P_bind (input PAskReplacement)
         (fun r => P_ret (set_replacement r args))
  else P_ret args))).

End Prompting.

(** Nothing is left to ask for. *)
Definition complete (args : Namespace) : bool :=
  truthy (ns_target args) && truthy (ns_phrase args) && truthy (ns_mode args)
  && negb (bool_decide (ns_mode args = Some (lit "replace"))
           && bool_decide (ns_replacement args = [])).

(** A line without anything but whitespace. *)
Definition blank (l : list N) : Prop := strip l = [].

(** A terminal session for the examples: every path is taken as it is, the
    only directory is [books], and answers are ASCII. *)
Definition demo_expanduser (s : list N) : option (list N) := Some s.
Definition demo_is_valid_dir (p : list N) : bool := bool_decide (p = lit "books").

Definition no_args : Namespace := {|
  ns_target := None; ns_phrase := None; ns_mode := None; ns_replacement := [];
  ns_ignore_case := false; ns_recursive := false; ns_apply := false;
  ns_force := false; ns_loose := false; ns_list_matches := false |}.

Definition demo_lower (s : list N) : list N := map (u_lower ascii_db) s.

(** Six answers: a path that is no directory, the directory, a blank line,
    the phrase, the mode in capitals, the replacement. *)
Definition demo_console : console := {|
  stdin := [lit "nowhere"; lit " books "; lit "   "; lit " (Z-Library) ";
            lit "REPLACE"; lit "x"];
  stdout := [] |}.

Definition demo_namespace : Namespace := {|
  ns_target := Some (lit "books"); ns_phrase := Some (lit "(Z-Library)");
  ns_mode := Some (lit "replace"); ns_replacement := lit "x";
  ns_ignore_case := false; ns_recursive := false; ns_apply := false;
  ns_force := false; ns_loose := false; ns_list_matches := false |}.

(** The demo command line with [--force]. *)
Definition forced_args : Args := {|
  target := books; phrase := lit "(Z-Library)"; mode := lit "delete";
  replacement := []; ignore_case := false; recursive := false;
  apply := false; force := true; loose := false; list_matches := false |}.

(** * Properties *)

(** ** The matching engine *)

Section EngineFacts.
Context (db : unicode_db).
Implicit Types (t : list N) (ps : list (atom * rep)) (f : list N -> list N).

Lemma subx_no_match fuel ic ps f t :
  search db ic ps t = None -> subx db fuel ic ps f t = t.
Proof. destruct fuel; simpl; [done|]. by intros ->. Qed.

(** The result of the loop does not depend on the fuel once it exceeds the
    length of the text. *)
Lemma subx_fuel ic ps f k1 : forall k2 t,
  length t < k1 -> length t < k2 ->
  subx db k1 ic ps f t = subx db k2 ic ps f t.
Proof.
  induction k1 as [|k1 IH]; intros k2 t H1 H2; [lia|].
  destruct k2 as [|k2]; [lia|]. simpl.
  destruct (search db ic ps t) as [[b n]|]; [|done].
  do 2 f_equal.
  destruct (drop (b + n) t) as [|c rest'] eqn:E; [done|].
  assert (length (c :: rest') <= length t) as Hl
    by (rewrite <- E, length_drop; lia).
  simpl in Hl.
  destruct (n =? 0) eqn:En.
  - f_equal. apply IH; lia.
  - apply Nat.eqb_neq in En.
    assert (length (c :: rest') < length t) as Hl'
      by (rewrite <- E, length_drop;
          assert (length (drop (b + n) t) > 0)
            by (rewrite E; simpl; lia);
          rewrite length_drop in *; lia).
    simpl in Hl'. apply IH; simpl; lia.
Qed.

Lemma sub_no_match ic ps f t :
  search db ic ps t = None -> sub db ic ps f t = t.
Proof. apply subx_no_match. Qed.

Lemma sub_nil ic ps f :
  match_here db ic ps [] = None -> sub db ic ps f [] = [].
Proof. intros H. apply sub_no_match. simpl. by rewrite H. Qed.


Lemma subx_S k ic ps f t :
  subx db (S k) ic ps f t =
    match search db ic ps t with
    | None => t
    | Some (b, n) =>
        take b t ++ f (take n (drop b t)) ++
          match drop (b + n) t with
          | [] => []
          | c :: rest' =>
              if (n =? 0)%nat then c :: subx db k ic ps f rest'
              else subx db k ic ps f (drop (b + n) t)
          end
    end.
Proof.
  simpl. destruct (search db ic ps t) as [[b n]|]; [|done].
  by destruct (drop (b + n) t).
Qed.

Lemma search_here ic ps t n :
  match_here db ic ps t = Some n -> search db ic ps t = Some (0, n).
Proof. intros H. destruct t; simpl; by rewrite H. Qed.

Lemma search_later ic ps c t :
  match_here db ic ps (c :: t) = None ->
  search db ic ps (c :: t) =
    match search db ic ps t with
    | Some (b, n) => Some (S b, n)
    | None => None
    end.
Proof. intros H. simpl search. by rewrite H. Qed.

(** Where the pattern does not match, the character is copied. *)
Lemma sub_skip ic ps f c t :
  match_here db ic ps (c :: t) = None ->
  sub db ic ps f (c :: t) = c :: sub db ic ps f t.
Proof.
  intros H. unfold sub. cbn [length].
  rewrite (subx_S (S _)), (subx_S (length t)), (search_later _ _ _ _ H).
  destruct (search db ic ps t) as [[b n]|] eqn:E; [|done].
  cbn [take drop Nat.add app]. do 3 f_equal.
  destruct (drop (b + n) t) as [|c' rest'] eqn:Ed; [done|].
  assert (length (c' :: rest') <= length t) as Hl
    by (rewrite <- Ed, length_drop; lia).
  simpl in Hl.
  destruct (n =? 0) eqn:En.
  - f_equal. apply subx_fuel; lia.
  - apply Nat.eqb_neq in En.
    assert (0 < length (drop (b + n) t)) by (rewrite Ed; simpl; lia).
    rewrite length_drop in *.
    apply subx_fuel; rewrite <- Ed, length_drop; lia.
Qed.

(** Where it matches, the match is replaced and the scan goes on behind
    it. *)
Lemma sub_hit ic ps f t n :
  match_here db ic ps t = Some n -> 0 < n ->
  sub db ic ps f t =
    f (take n t) ++
    match drop n t with
    | [] => []
    | _ :: _ => sub db ic ps f (drop n t)
    end.
Proof.
  intros H Hn. unfold sub at 1.
  rewrite subx_S, (search_here _ _ _ _ H).
  rewrite take_0, drop_0. cbn [Nat.add app]. f_equal.
  destruct (drop n t) as [|c rest'] eqn:Ed; [done|].
  assert (0 < length (drop n t)) by (rewrite Ed; simpl; lia).
  destruct (n =? 0) eqn:En; [apply Nat.eqb_eq in En; lia|].
  rewrite <- Ed. unfold sub.
  rewrite length_drop in *.
  apply subx_fuel; rewrite length_drop; lia.
Qed.

End EngineFacts.

(** ** The Normalizer *)

Section NormalizerFacts.
Context (db : unicode_db).
Implicit Types (s t u : list N) (a : atom).

Lemma ws_atom_space : ws_atom db ASpace.
Proof. done. Qed.

Lemma ws_atom_class : ws_atom db (AIn SPACES_CLASS).
Proof.
  intros c. cbn. unfold NBSP, NNBSP.
  destruct (N.eqb_spec c 0xA0) as [->|]; [done|].
  destruct (N.eqb_spec c 0x202F) as [->|]; [done|].
  by rewrite !orb_false_r.
Qed.

Lemma space_is_space : py_isspace SPACE = true.
Proof. done. Qed.

Lemma not_space_neq c : py_isspace c = false -> (c =? SPACE)%N = false.
Proof.
  intros H. destruct (N.eqb_spec c SPACE) as [->|]; [|done].
  by rewrite space_is_space in H.
Qed.

Lemma run_length_drop a t :
  ws_atom db a -> drop (run_length db false a t) t = lstrip t.
Proof.
  intros Ha. induction t as [|c t IH]; [done|].
  simpl. rewrite Ha. by destruct (py_isspace c).
Qed.

Lemma length_lstrip t : length (lstrip t) <= length t.
Proof. induction t as [|c t IH]; simpl; [lia|]. destruct (py_isspace c); simpl; lia. Qed.

Lemma sub_hit' ic ps f t n :
  match_here db ic ps [] = None ->
  match_here db ic ps t = Some n -> 0 < n ->
  sub db ic ps f t = f (take n t) ++ sub db ic ps f (drop n t).
Proof.
  intros H0 H Hn. rewrite (sub_hit db ic ps f t n H Hn).
  destruct (drop n t); [|done]. by rewrite sub_nil.
Qed.

(** [x+] matches the whole run, when there is one. *)
Lemma match_plus a t :
  match_here db false [(a, AtLeast 1)] t =
    match run_length db false a t with
    | O => None
    | S n => Some (S n)
    end.
Proof.
  simpl. destruct (run_length db false a t) as [|n]; simpl; [done|].
  by rewrite Nat.add_0_r.
Qed.

Lemma to_space_ws c : py_isspace c = true -> to_space c = SPACE.
Proof. unfold to_space. by intros ->. Qed.

Lemma to_space_ink c : py_isspace c = false -> to_space c = c.
Proof. unfold to_space. by intros ->. Qed.

Lemma collapse_run c s :
  py_isspace c = true ->
  collapse_spaces (map to_space (c :: s))
  = SPACE :: collapse_spaces (map to_space (lstrip s)).
Proof.
  intros Hc. revert c Hc. induction s as [|d s IH]; intros c Hc.
  - simpl. by rewrite to_space_ws.
  - cbn [map lstrip]. destruct (py_isspace d) eqn:Hd.
    + rewrite <- (IH d Hd). cbn [map collapse_spaces].
      by rewrite !to_space_ws.
    + cbn [collapse_spaces map]. rewrite (to_space_ws c), (to_space_ink d) by done.
      cbn [starts_with]. by rewrite (not_space_neq d Hd).
Qed.

(** Step 1 (and 2): the first substitution of [normalize_spaces]. *)
Lemma sub_plus_collapse a s :
  ws_atom db a ->
  sub db false [(a, AtLeast 1)] (fun _ => [SPACE]) s
  = collapse_spaces (map to_space s).
Proof.
  intros Ha. remember (length s) as k eqn:Hk. revert s Hk.
  induction k as [k IH] using lt_wf_ind. intros s ->.
  destruct s as [|c s]; [by apply sub_nil|].
  destruct (py_isspace c) eqn:Hc.
  - rewrite collapse_run by done.
    assert (match_here db false [(a, AtLeast 1)] (c :: s)
            = Some (S (run_length db false a s))) as Hm.
    { rewrite match_plus. simpl. by rewrite Ha, Hc. }
    rewrite (sub_hit' false [(a, AtLeast 1)] _ _ _ eq_refl Hm) by lia.
    cbn [drop app]. f_equal. rewrite run_length_drop by done.
    eapply IH; [|done]. pose proof (length_lstrip s). simpl. lia.
  - assert (match_here db false [(a, AtLeast 1)] (c :: s) = None) as Hm.
    { rewrite match_plus. simpl. by rewrite Ha, Hc. }
    rewrite sub_skip by done.
    cbn [map collapse_spaces]. rewrite (to_space_ink c Hc).
    rewrite (not_space_neq c Hc). cbn [andb]. f_equal.
    eapply IH; [|done]. simpl. lia.
Qed.


Lemma spaced_tail c s : spaced (c :: s) -> spaced s.
Proof. by intros [_ H]. Qed.

Lemma search_none ic ps t :
  (forall i, match_here db ic ps (drop i t) = None) ->
  search db ic ps t = None.
Proof.
  induction t as [|c t IH]; intros H.
  - pose proof (H 0) as H0. simpl in *. by rewrite H0.
  - pose proof (H 0) as H0. rewrite drop_0 in H0.
    cbn [search]. rewrite H0, IH; [done|].
    intros i. apply (H (S i)).
Qed.

Lemma spaced_drop i s : spaced s -> spaced (drop i s).
Proof.
  revert s. induction i as [|i IH]; intros s H; [by rewrite drop_0|].
  destruct s as [|c s]; [done|]. apply IH. by destruct H.
Qed.

Lemma spaced_run_length a s :
  ws_atom db a -> spaced s -> run_length db false a s <= 1.
Proof.
  intros Ha H. destruct s as [|c s]; simpl; [lia|].
  rewrite Ha. destruct (py_isspace c) eqn:Hc; [|lia].
  destruct H as [H _]. destruct (H Hc) as [_ Hd].
  destruct s as [|d s]; simpl; [lia|]. rewrite Ha, Hd. lia.
Qed.

(** Step 2 finds nothing to do after step 1. *)
Lemma sub_two_spaced s :
  spaced s -> sub db false [(ASpace, AtLeast 2)] (fun _ => [SPACE]) s = s.
Proof.
  intros H. apply sub_no_match, search_none. intros i.
  pose proof (spaced_run_length ASpace _ ws_atom_space (spaced_drop i s H)) as Hr.
  simpl. destruct (run_length db false ASpace (drop i s)) as [|[|n]];
    simpl; [done|done|lia].
Qed.

Lemma dot_not_space : py_isspace DOT = false.
Proof. done. Qed.

(** The third pattern, [\s+\.], on a text where runs have length one. *)
Lemma match_space_dot c s :
  spaced (c :: s) ->
  match_here db false [(ASpace, AtLeast 1); (ALit DOT, Once)] (c :: s)
  = if (c =? SPACE)%N && starts_with DOT s then Some 2 else None.
Proof.
  intros H. cbn [match_here run_length accepts].
  destruct (py_isspace c) eqn:Hc.
  - destruct H as [H _]. destruct (H Hc) as [-> Hd].
    rewrite N.eqb_refl. cbn [andb].
    destruct s as [|d s]; [done|].
    cbn [run_length accepts]. rewrite Hd.
    cbn [backtrack Nat.ltb Nat.leb drop match_here accepts lit_accepts andb
         starts_with].
    destruct (d =? DOT)%N; [done|]. done.
  - rewrite (not_space_neq c Hc). done.
Qed.

(** Step 3. *)
Lemma sub_space_dot s :
  spaced s ->
  sub db false [(ASpace, AtLeast 1); (ALit DOT, Once)] (fun _ => [DOT]) s
  = drop_space_before_dot s.
Proof.
  remember (length s) as k eqn:Hk. revert s Hk.
  induction k as [k IH] using lt_wf_ind. intros s -> H.
  destruct s as [|c s]; [by apply sub_nil|].
  pose proof (match_space_dot c s H) as Hm.
  cbn [drop_space_before_dot].
  destruct ((c =? SPACE)%N && starts_with DOT s) eqn:E.
  - rewrite (sub_hit' false [(ASpace, AtLeast 1); (ALit DOT, Once)]
               _ _ _ eq_refl Hm) by lia.
    apply andb_prop in E as [_ Ed].
    destruct s as [|d s]; [done|]. cbn [drop app].
    simpl in Ed. apply N.eqb_eq in Ed as ->.
    cbn [drop_space_before_dot]. cbn [andb N.eqb DOT SPACE Pos.eqb].
    f_equal. eapply IH; [|done|]; [simpl; lia|].
    by apply (spaced_drop 2 (c :: DOT :: s)).
  - rewrite sub_skip by done. f_equal.
    eapply IH; [|done|]; [simpl; lia|]. by apply spaced_tail in H.
Qed.

Lemma spaced_collapse s : spaced (collapse_spaces (map to_space s)).
Proof.
  induction s as [|c s IH]; [done|].
  destruct (py_isspace c) eqn:Hc.
  - rewrite collapse_run by done. split.
    + intros _. split; [done|].
      clear IH. induction s as [|d s IH]; [done|].
      cbn [lstrip]. destruct (py_isspace d) eqn:Hd; [done|].
      cbn [map collapse_spaces]. rewrite (to_space_ink d Hd).
      by rewrite (not_space_neq d Hd).
    + clear Hc. destruct s as [|d s]; [done|].
      cbn [lstrip]. destruct (py_isspace d) eqn:Hd; [|done].
      rewrite collapse_run in IH by done. by destruct IH.
  - cbn [map collapse_spaces]. rewrite (to_space_ink c Hc).
    rewrite (not_space_neq c Hc). cbn [andb]. split; [|done].
    intros Hc'. congruence.
Qed.

(** The source computes the four steps of the specification. *)
Lemma normalize_spaces_steps s :
  normalize_spaces db s = spec_normalize s.
Proof.
  unfold normalize_spaces, spec_normalize, re_sub.
  change (lit " ") with [SPACE]. change (lit ".") with [DOT].
  rewrite (sub_plus_collapse _ _ ws_atom_class).
  rewrite sub_two_spaced by apply spaced_collapse.
  by rewrite sub_space_dot by apply spaced_collapse.
Qed.

(** *** What each step guarantees *)

Lemma dsbd_head c s :
  (c =? SPACE)%N = false ->
  drop_space_before_dot (c :: s) = c :: drop_space_before_dot s.
Proof. intros H. simpl. by rewrite H. Qed.

Lemma spaced_dsbd s : spaced s -> spaced (drop_space_before_dot s).
Proof.
  induction s as [|c s IH]; [done|]. intros [Hc Hs]. simpl.
  destruct ((c =? SPACE)%N && starts_with DOT s); [by apply IH|].
  split; [|by apply IH]. intros Hw. destruct (Hc Hw) as [-> Hd].
  split; [done|]. destruct s as [|d s]; [done|].
  by rewrite dsbd_head by by apply not_space_neq.
Qed.

Lemma no_space_dot_dsbd s :
  spaced s -> no_space_dot (drop_space_before_dot s).
Proof.
  induction s as [|c s IH]; [done|]. intros [Hc Hs]. simpl.
  destruct ((c =? SPACE)%N && starts_with DOT s) eqn:E; [by apply IH|].
  split; [|by apply IH]. intros ->.
  destruct (Hc space_is_space) as [_ Hd].
  destruct s as [|d s]; [done|].
  rewrite dsbd_head by by apply not_space_neq.
  by rewrite N.eqb_refl in E.
Qed.

(** [lstrip] keeps a suffix, [rstrip] a prefix; what falls is whitespace. *)
Lemma lstrip_suffix s :
  exists w, s = w ++ lstrip s /\ Forall (fun c => py_isspace c = true) w.
Proof.
  induction s as [|c s (w & Hw & Hall)]; [by exists []|].
  simpl. destruct (py_isspace c) eqn:Hc.
  - exists (c :: w). split; [by rewrite Hw at 1|by constructor].
  - by exists [].
Qed.

Lemma rstrip_prefix s :
  exists w, s = rstrip s ++ w /\ Forall (fun c => py_isspace c = true) w.
Proof.
  destruct (lstrip_suffix (reverse s)) as (w & Hw & Hall).
  exists (reverse w). split.
  - unfold rstrip. rewrite <- reverse_app, <- Hw. by rewrite reverse_involutive.
  - by apply Forall_reverse.
Qed.

Lemma spaced_app_l s w : spaced (s ++ w) -> spaced s.
Proof.
  induction s as [|c s IH]; [done|]. intros [Hc Hs].
  split; [|by apply IH]. intros Hw. destruct (Hc Hw) as [-> Hd].
  split; [done|]. by destruct s.
Qed.

Lemma spaced_app_r w s : spaced (w ++ s) -> spaced s.
Proof. induction w as [|c w IH]; [done|]. intros [_ H]. by apply IH. Qed.

Lemma no_space_dot_app_l s w : no_space_dot (s ++ w) -> no_space_dot s.
Proof.
  induction s as [|c s IH]; [done|]. intros [Hc Hs].
  split; [|by apply IH]. intros ->. specialize (Hc eq_refl).
  by destruct s.
Qed.

Lemma no_space_dot_app_r w s : no_space_dot (w ++ s) -> no_space_dot s.
Proof. induction w as [|c w IH]; [done|]. intros [_ H]. by apply IH. Qed.

Lemma spaced_strip s : spaced s -> spaced (strip s).
Proof.
  intros H. unfold strip.
  destruct (lstrip_suffix s) as (w1 & E1 & _).
  destruct (rstrip_prefix (lstrip s)) as (w2 & E2 & _).
  rewrite E1 in H. apply spaced_app_r in H.
  rewrite E2 in H. by apply spaced_app_l in H.
Qed.

Lemma no_space_dot_strip s : no_space_dot s -> no_space_dot (strip s).
Proof.
  intros H. unfold strip.
  destruct (lstrip_suffix s) as (w1 & E1 & _).
  destruct (rstrip_prefix (lstrip s)) as (w2 & E2 & _).
  rewrite E1 in H. apply no_space_dot_app_r in H.
  rewrite E2 in H. by apply no_space_dot_app_l in H.
Qed.

Lemma lstrip_head s c : head (lstrip s) = Some c -> py_isspace c = false.
Proof.
  induction s as [|d s IH]; [done|]. simpl.
  destruct (py_isspace d) eqn:Hd; [done|]. simpl. by intros [= <-].
Qed.

Lemma rstrip_last s c : last (rstrip s) = Some c -> py_isspace c = false.
Proof. unfold rstrip. rewrite last_reverse. apply lstrip_head. Qed.

Lemma strip_head s c : head (strip s) = Some c -> py_isspace c = false.
Proof.
  unfold strip. intros H.
  destruct (rstrip_prefix (lstrip s)) as (w & E & _).
  apply (lstrip_head s). rewrite E.
  by destruct (rstrip (lstrip s)).
Qed.

Lemma strip_last s c : last (strip s) = Some c -> py_isspace c = false.
Proof. apply rstrip_last. Qed.

(** *** The non-spacing content is untouched *)

Lemma ink_cons_ws c s : py_isspace c = true -> ink (c :: s) = ink s.
Proof. intros H. unfold ink. rewrite filter_cons_False; [done|]. by rewrite H. Qed.

Lemma ink_cons_ink c s : py_isspace c = false -> ink (c :: s) = c :: ink s.
Proof. intros H. unfold ink. by rewrite filter_cons_True. Qed.


Lemma ink_to_space s : ink (map to_space s) = ink s.
Proof.
  induction s as [|c s IH]; [done|]. simpl.
  destruct (py_isspace c) eqn:Hc.
  - rewrite (to_space_ws c Hc), !ink_cons_ws; done.
  - rewrite (to_space_ink c Hc), !ink_cons_ink; by f_equal.
Qed.

Lemma eqb_space_ws c : (c =? SPACE)%N = true -> py_isspace c = true.
Proof. by intros ->%N.eqb_eq. Qed.





(** *** The result is in normal form, and normal forms are fixed *)

Lemma normal_spec_normalize s : normal (spec_normalize s).
Proof.
  unfold spec_normalize. repeat split.
  - apply spaced_strip, spaced_dsbd, spaced_collapse.
  - apply no_space_dot_strip, no_space_dot_dsbd, spaced_collapse.
  - apply strip_head.
  - apply strip_last.
Qed.

Lemma spaced_to_space s : spaced s -> map to_space s = s.
Proof.
  induction s as [|c s IH]; [done|]. intros [Hc Hs]. simpl.
  rewrite IH by done. f_equal.
  destruct (py_isspace c) eqn:E.
  - rewrite to_space_ws by done. by destruct (Hc eq_refl).
  - by apply to_space_ink.
Qed.

Lemma spaced_collapse_id s : spaced s -> collapse_spaces s = s.
Proof.
  induction s as [|c s IH]; [done|]. intros [Hc Hs]. simpl.
  rewrite IH by done.
  destruct (c =? SPACE)%N eqn:E; [|done].
  destruct (Hc (eqb_space_ws c E)) as [_ Hd].
  destruct s as [|d s]; [done|]. simpl.
  by rewrite (not_space_neq d Hd).
Qed.

Lemma no_space_dot_id s : no_space_dot s -> drop_space_before_dot s = s.
Proof.
  induction s as [|c s IH]; [done|]. intros [Hc Hs]. simpl.
  rewrite IH by done.
  destruct (c =? SPACE)%N eqn:E; [|done].
  apply N.eqb_eq in E. by rewrite (Hc E).
Qed.

Lemma lstrip_id s :
  (forall c, head s = Some c -> py_isspace c = false) -> lstrip s = s.
Proof. destruct s as [|c s]; [done|]. intros H. simpl. by rewrite (H c). Qed.

Lemma rstrip_id s :
  (forall c, last s = Some c -> py_isspace c = false) -> rstrip s = s.
Proof.
  intros H. unfold rstrip. rewrite lstrip_id.
  - apply reverse_involutive.
  - intros c. rewrite head_reverse. apply H.
Qed.

Lemma normal_fixed s : normal s -> spec_normalize s = s.
Proof.
  intros (H1 & H2 & H3 & H4). unfold spec_normalize, strip.
  rewrite spaced_to_space, spaced_collapse_id, no_space_dot_id by done.
  by rewrite lstrip_id, rstrip_id.
Qed.

(** *** Reading the normal form position by position *)




End NormalizerFacts.



(** ** Patterns *)

Section PatternFacts.
Context (db : unicode_db).
Implicit Types (s t : list N) (ps : list (atom * rep)) (a : atom).

Lemma existsb_eqb_elem (c : N) (l : list N) :
  existsb (N.eqb c) l = true <-> c ∈ l.
Proof.
  rewrite existsb_exists. split.
  - intros (x & Hx & ->%N.eqb_eq). by apply list_elem_of_In.
  - intros H. exists c. split; [by apply list_elem_of_In|apply N.eqb_refl].
Qed.

Lemma existsb_eqb_not_elem (c : N) (l : list N) :
  existsb (N.eqb c) l = false <-> c ∉ l.
Proof.
  rewrite <- existsb_eqb_elem. by destruct (existsb (N.eqb c) l).
Qed.

(** *** Classes *)

Lemma class_chars_accepts (l : list N) c :
  class_accepts db false (map CsChar l) c = existsb (N.eqb c) l.
Proof. simpl. induction l as [|p l IH]; [done|]. simpl. by rewrite IH. Qed.

Lemma hyphens_class_accepts c :
  accepts db false (AIn HYPHENS_CLASS) c = true <-> c ∈ HYPHENS.
Proof.
  unfold HYPHENS_CLASS. cbn [accepts]. rewrite class_chars_accepts.
  apply existsb_eqb_elem.
Qed.

Lemma spaces_class_accepts c :
  accepts db false (AIn SPACES_CLASS) c = true <-> py_isspace c = true.
Proof. by rewrite (ws_atom_class db c). Qed.

Lemma lit_accepts_plain p c :
  accepts db false (ALit p) c = true <-> c = p.
Proof. simpl. unfold lit_accepts. simpl. apply N.eqb_eq. Qed.

Lemma lit_accepts_refl ic p : lit_accepts db ic p p = true.
Proof.
  unfold lit_accepts. destruct (ic && u_iscased db p).
  - simpl. by rewrite N.eqb_refl.
  - apply N.eqb_refl.
Qed.

(** Under IGNORECASE a class whose characters the case tables leave alone
    matches as it does without the flag. *)
Lemma class_accepts_plain ic cl c :
  (ic = true -> Forall (plain_member db) cl) ->
  class_accepts db ic cl c = class_accepts db false cl c.
Proof.
  destruct ic; [|done]. intros H. specialize (H eq_refl).
  assert (flat_map (cset_fold db) cl = cl /\ existsb (cset_cased db) cl = false)
    as [E1 E2].
  { induction H as [|m cl Hm _ [IH1 IH2]]; [done|].
    destruct m as [p|]; simpl.
    - destruct Hm as (Hc & Hl & Hf). by rewrite Hl, Hf, Hc, IH1, IH2.
    - by rewrite IH1, IH2. }
  unfold class_accepts. by rewrite E1, E2.
Qed.

Lemma plain_hyphens : plain_classes db -> Forall (plain_member db) HYPHENS_CLASS.
Proof.
  intros H. apply Forall_app in H as [H _].
  unfold HYPHENS_CLASS. by apply Forall_map.
Qed.

Lemma plain_spaces : plain_classes db -> Forall (plain_member db) SPACES_CLASS.
Proof.
  intros H. apply Forall_app in H as [_ H].
  constructor; [done|]. change [CsChar NBSP; CsChar NNBSP] with (map CsChar [NBSP; NNBSP]).
  by apply Forall_map.
Qed.

Lemma hyphens_class_accepts_ic ic c :
  (ic = true -> plain_classes db) ->
  accepts db ic (AIn HYPHENS_CLASS) c = true <-> c ∈ HYPHENS.
Proof.
  intros H. cbn [accepts]. rewrite class_accepts_plain.
  - apply hyphens_class_accepts.
  - intros Hic. by apply plain_hyphens, H.
Qed.

Lemma spaces_class_accepts_ic ic c :
  (ic = true -> plain_classes db) ->
  accepts db ic (AIn SPACES_CLASS) c = true <-> py_isspace c = true.
Proof.
  intros H. cbn [accepts]. rewrite class_accepts_plain.
  - apply spaces_class_accepts.
  - intros Hic. by apply plain_spaces, H.
Qed.

(** *** The pieces [build_pattern] makes *)

Lemma loose_piece_hyphen ch :
  ch ∈ HYPHENS -> loose_piece ch = (AIn HYPHENS_CLASS, Once).
Proof.
  intros H. unfold loose_piece.
  by rewrite (proj2 (existsb_eqb_elem ch HYPHENS) H).
Qed.

Lemma spacing_is_space ch :
  py_isspace ch || existsb (N.eqb ch) [NBSP; NNBSP] = py_isspace ch.
Proof.
  simpl. unfold NBSP, NNBSP.
  destruct (N.eqb_spec ch 0xA0) as [->|]; [done|].
  destruct (N.eqb_spec ch 0x202F) as [->|]; [done|].
  by rewrite orb_false_r.
Qed.

Lemma loose_piece_space ch :
  ch ∉ HYPHENS -> py_isspace ch = true ->
  loose_piece ch = (AIn SPACES_CLASS, Once).
Proof.
  intros H Hs. unfold loose_piece.
  by rewrite (proj2 (existsb_eqb_not_elem ch HYPHENS) H), spacing_is_space, Hs.
Qed.

Lemma loose_piece_other ch :
  ch ∉ HYPHENS -> py_isspace ch = false ->
  loose_piece ch = (ALit ch, Once).
Proof.
  intros H Hs. unfold loose_piece.
  by rewrite (proj2 (existsb_eqb_not_elem ch HYPHENS) H), spacing_is_space, Hs.
Qed.

End PatternFacts.

(** C3, as amended.  With the loose flag the pattern builder normalizes the
    phrase (NFKC) and then works character by character: a member of the
    nine-element hyphen set becomes a class that matches exactly that set, a
    whitespace character becomes a class that matches every whitespace
    character of Unicode (the ASCII space, the no-break space and the narrow
    no-break space among them), and any other character becomes a literal
    that matches itself only. *)
Theorem C3_build_pattern_loose (db : unicode_db) (phrase : list N) (ic : bool) :
  pat_ignorecase (build_pattern db phrase ic true) = ic
  /\ pat_pieces (build_pattern db phrase ic true)
     = map loose_piece (u_nfkc db phrase)
  /\ (forall ch, ch ∈ HYPHENS -> loose_piece ch = (AIn HYPHENS_CLASS, Once))
  /\ (forall ch, ch ∉ HYPHENS -> py_isspace ch = true ->
        loose_piece ch = (AIn SPACES_CLASS, Once))
  /\ (forall ch, ch ∉ HYPHENS -> py_isspace ch = false ->
        loose_piece ch = (ALit ch, Once))
  /\ length HYPHENS = 9
  /\ (forall c, accepts db false (AIn HYPHENS_CLASS) c = true <-> c ∈ HYPHENS)
  /\ (forall c, accepts db false (AIn SPACES_CLASS) c = true
                <-> py_isspace c = true)
  /\ (forall c, c ∈ SPACING -> py_isspace c = true)
  /\ (forall p c, accepts db false (ALit p) c = true <-> c = p).
Proof.
  repeat split.
  - apply loose_piece_hyphen.
  - apply loose_piece_space.
  - apply loose_piece_other.
  - apply hyphens_class_accepts.
  - apply hyphens_class_accepts.
  - apply spaces_class_accepts.
  - apply spaces_class_accepts.
  - intros c Hc. repeat (apply elem_of_cons in Hc as [->|Hc]; [done|]).
    by apply elem_of_nil in Hc.
  - apply lit_accepts_plain.
  - apply lit_accepts_plain.
Qed.

(** C3 as stated fails: the class that stands for a space of the phrase
    matches a tab, which is none of the three characters of the claim, so
    the loose pattern of ["a b"] is found in a name spelt with a tab. *)
Lemma C3_space_class_matches_tab :
  pat_pieces (build_pattern ascii_db (lit " ") false true)
  = [(AIn SPACES_CLASS, Once)]
  /\ accepts ascii_db false (AIn SPACES_CLASS) 0x09%N = true
  /\ (0x09%N ∉ SPACING)
  /\ pattern_search ascii_db (build_pattern ascii_db (lit "a b") false true)
       (lit "a" ++ [0x09%N] ++ lit "b") = true.
Proof.
  repeat split; try by vm_compute.
  intros H. repeat (apply elem_of_cons in H as [H|H]; [done|]).
  by apply elem_of_nil in H.
Qed.

(** C10.  With an empty replacement text, replace mode (and indeed any
    mode string) proposes exactly what delete mode proposes, whatever
    replacement text delete mode is handed: the outcome is the same name, or
    the same error. *)
Theorem C10_replace_empty_is_delete (db : unicode_db) (name : list N)
  (pattern : Pattern) (mode ignored : list N) :
  propose_new_name db name pattern (lit "replace") []
  = propose_new_name db name pattern (lit "delete") ignored
  /\ propose_new_name db name pattern mode []
     = propose_new_name db name pattern (lit "delete") ignored.
Proof.
  split; [reflexivity|].
  unfold propose_new_name.
  destruct (decide (mode = lit "delete")) as [->|Hne]; [reflexivity|].
  by destruct (decide (lit "delete" = lit "delete")).
Qed.

(** ** Proposals *)

Section ProposalFacts.
Context (db : unicode_db).
Implicit Types (name : list N) (pattern : Pattern).

Lemma pattern_search_false pattern name :
  pattern_search db pattern name = false ->
  search db (pat_ignorecase pattern) (pat_pieces pattern) name = None.
Proof.
  unfold pattern_search. intros H%bool_decide_eq_false.
  destruct (search _ _ _ _); [|done]. by destruct H.
Qed.

Lemma propose_Ok_inv name pattern mode replacement r :
  propose_new_name db name pattern mode replacement = Ok r ->
  exists filter,
    compile_template (if decide (mode = lit "delete") then [] else replacement)
    = Ok filter
    /\ r = normalize_spaces db
             (sub db (pat_ignorecase pattern) (pat_pieces pattern) filter name).
Proof.
  unfold propose_new_name, pattern_sub.
  destruct (compile_template _) as [f|e]; simpl; [|done].
  intros [= <-]. by exists f.
Qed.

(** Without an occurrence the proposal is the normalized name. *)
Lemma propose_no_match name pattern mode replacement filter :
  compile_template (if decide (mode = lit "delete") then [] else replacement)
  = Ok filter ->
  pattern_search db pattern name = false ->
  propose_new_name db name pattern mode replacement
  = Ok (normalize_spaces db name).
Proof.
  intros Hc Hs. unfold propose_new_name, pattern_sub. rewrite Hc. simpl.
  by rewrite sub_no_match by by apply pattern_search_false.
Qed.

Lemma normalize_spaces_idem s :
  normalize_spaces db (normalize_spaces db s) = normalize_spaces db s.
Proof.
  rewrite !normalize_spaces_steps. apply normal_fixed, normal_spec_normalize.
Qed.

(** A proposed name without an occurrence is proposed unchanged. *)
Lemma propose_settled old name pattern mode replacement :
  propose_new_name db old pattern mode replacement = Ok name ->
  pattern_search db pattern name = false ->
  propose_new_name db name pattern mode replacement = Ok name.
Proof.
  intros (f & Hc & ->)%propose_Ok_inv Hs.
  rewrite (propose_no_match _ _ _ _ f Hc Hs). by rewrite normalize_spaces_idem.
Qed.

Lemma collect_loop_settled (files : list (list (list N))) pattern mode
  replacement changes total :
  (forall p, p ∈ files ->
     propose_new_name db (name_of p) pattern mode replacement
     = Ok (name_of p)) ->
  collect_loop db files pattern mode replacement changes total
  = Ok (changes, total + length files).
Proof.
  revert changes total. induction files as [|p files IH]; intros changes total H.
  - simpl. by rewrite Nat.add_0_r.
  - simpl. rewrite (H p) by (apply elem_of_cons; by left). simpl.
    rewrite bool_decide_eq_false_2 by (by intros []).
    rewrite IH by (intros q Hq; apply H, elem_of_cons; by right).
    do 2 f_equal. lia.
Qed.

End ProposalFacts.

(** C7.  On a directory whose file names all come out of the planner's
    proposal and hold no occurrence of the phrase, planning again with the
    same pattern, mode and replacement returns an empty plan (and counts
    every file). *)
Theorem C7_planner_idempotent (db : unicode_db) (root : list (list N))
  (recursive : bool) (pattern : Pattern) (mode replacement : list N)
  (w : world) :
  (forall p, p ∈ iter_files_of (w_fs w) root recursive ->
     pattern_search db pattern (name_of p) = false
     /\ exists old,
          propose_new_name db old pattern mode replacement = Ok (name_of p)) ->
  (collect_changes db root recursive pattern mode replacement w).1
  = Ret ([], length (iter_files_of (w_fs w) root recursive)).
Proof.
  intros H. unfold collect_changes, iter_files, list_files, emit, lift.
  unfold mbind, M_bind. simpl.
  rewrite collect_loop_settled; [done|].
  intros p Hp. destruct (H p Hp) as (Hs & old & Hold).
  by apply (propose_settled db old).
Qed.

Lemma C7_planner_idempotent_witness :
  (collect_changes ascii_db books false tag_pattern (lit "delete") []
     (start cleaned_fs)).1
  = Ret ([], 2).
Proof.
  apply (C7_planner_idempotent ascii_db books false tag_pattern (lit "delete")
           [] (start cleaned_fs)).
  intros p Hp. vm_compute in Hp.
  apply elem_of_cons in Hp as [->|Hp].
  - split; [by vm_compute|].
    exists (lit "b (Z-Library) c.pdf"). by vm_compute.
  - apply elem_of_cons in Hp as [->|Hp].
    + split; [by vm_compute|].
      exists (lit "a (Z-Library).pdf"). by vm_compute.
    + by apply elem_of_nil in Hp.
Defined.

(** C1 fails on the code: a name without the phrase but with two spaces in a
    row is not matched, yet the Normalizer rewrites it and the planner emits
    a plan entry for it. *)
Lemma C1_unmatched_name_gets_entry :
  pattern_search ascii_db tag_pattern (lit "a  b.pdf") = false
  /\ propose_new_name ascii_db (lit "a  b.pdf") tag_pattern (lit "delete") []
     = Ok (lit "a b.pdf")
  /\ (collect_changes ascii_db books false tag_pattern (lit "delete") []
        (start untagged_fs)).1
     = Ret ([(books ++ [lit "a  b.pdf"], books ++ [lit "a b.pdf"])], 1).
Proof. repeat split; by vm_compute. Qed.

(** C2 fails on the code: a replacement that holds a backslash is read as a
    template.  [\g<0>] expands to the matched text, a doubled backslash
    becomes one, and an unknown escape raises. *)
Lemma C2_replacement_is_a_template :
  propose_new_name ascii_db (lit "a(tag)b.pdf")
    (build_pattern ascii_db (lit "(tag)") false false) (lit "replace")
    (lit "[\g<0>]")
  = Ok (lit "a[(tag)]b.pdf")
  /\ propose_new_name ascii_db (lit "a(tag)b.pdf")
       (build_pattern ascii_db (lit "(tag)") false false) (lit "replace")
       (lit "x\\y")
     = Ok (lit "ax\yb.pdf")
  /\ propose_new_name ascii_db (lit "a(tag)b.pdf")
       (build_pattern ascii_db (lit "(tag)") false false) (lit "replace")
       (lit "\d")
     = Err ReError.
Proof. repeat split; by vm_compute. Qed.

(** ** Dash variants *)

Section DashFacts.
Context (db : unicode_db).
Implicit Types (s t phrase pre post : list N) (ps : list (atom * rep)).





Lemma hyphen_not_space c : c ∈ HYPHENS -> py_isspace c = false.
Proof.
  intros H. repeat (apply elem_of_cons in H as [->|H]; [done|]).
  by apply elem_of_nil in H.
Qed.




Lemma loose_all_once phrase :
  Forall (fun pc : atom * rep => pc.2 = Once) (map loose_piece phrase).
Proof.
  apply Forall_map, Forall_forall. intros ch _. unfold loose_piece.
  destruct (existsb _ _); [done|]. by destruct (_ || _).
Qed.






Lemma escaped_all_once phrase :
  Forall (fun pc : atom * rep => pc.2 = Once) (escaped phrase).
Proof. apply Forall_map, Forall_forall. by intros ch _. Qed.


End DashFacts.




(** ** Effects *)

Section FrameFacts.
Context (db : unicode_db) (env : Env).

Lemma bind_unfold {A B} (c : M A) (k : A -> M B) w :
  (c ≫= k) w =
    match c w with
    | (Ret a, w') => k a w'
    | (Raised e, w') => (Raised e, w')
    | (Exited n, w') => (Exited n, w')
    end.
Proof. done. Qed.

Lemma frame_ret {A} (a : A) : frame (mret a : M A).
Proof. intros w. split; [done|]. exists []. by rewrite app_nil_r. Qed.

Lemma frame_bind {A B} (c : M A) (k : A -> M B) :
  frame c -> (forall a, frame (k a)) -> frame (c ≫= k).
Proof.
  intros Hc Hk w. rewrite bind_unfold.
  destruct (Hc w) as (Hfs & evs & Hlog & Hro).
  destruct (c w) as [[a|e|n] w']; simpl in *; [|by eauto..].
  destruct (Hk a w') as (Hfs' & evs' & Hlog' & Hro').
  split; [congruence|]. exists (evs ++ evs'). split.
  - by rewrite Hlog', Hlog, app_assoc.
  - by apply Forall_app.
Qed.

Lemma frame_pure {A} (f : world -> outcome A) : frame (fun w => (f w, w)).
Proof. intros w. split; [done|]. exists []. by rewrite app_nil_r. Qed.

Lemma frame_lift {A} (r : result A) : frame (lift r).
Proof. intros w. unfold lift. destruct r; split; try done; exists []; by rewrite app_nil_r. Qed.


Lemma frame_emit e : read_only e -> frame (emit e).
Proof. intros H w. split; [done|]. exists [e]. split; [done|]. by constructor. Qed.

Lemma frame_print m : frame (print m).
Proof. by apply frame_emit. Qed.


Lemma frame_path_exists p : frame (path_exists p).
Proof. apply (frame_pure (fun w => Ret _)). Qed.


Lemma frame_iter_files root recursive : frame (iter_files root recursive).
Proof.
  apply frame_bind; [by apply frame_emit|]. intros _.
  apply (frame_pure (fun w => Ret _)).
Qed.


Lemma frame_print_matches files pattern any :
  frame (print_matches db files pattern any).
Proof.
  revert any. induction files as [|p files IH]; intros any; [apply frame_ret|].
  simpl. destruct (pattern_search db pattern (name_of p)); [|done].
  apply frame_bind; [apply frame_print|done].
Qed.

(** Planning reads the directory and computes. *)
Lemma frame_collect_changes root recursive pattern mode replacement :
  frame (collect_changes db root recursive pattern mode replacement).
Proof.
  apply frame_bind; [apply frame_iter_files|]. intros files. apply frame_lift.
Qed.






End FrameFacts.



(** ** The execution loop with [--apply] *)

Section ExecuteFacts.
Implicit Types (fs : gmap (list (list N)) node) (w : world) (k : counters).


(** An entry that is not skipped is handed to [rename]; the outcome of the
    call decides between the renamed and the error branch. *)
Lemma execute_attempt src dst rest k w :
  (bool_decide (dst = []) || bool_decide (is_Some (w_fs w !! dst)))
  && bool_decide (dst ≠ src) = false ->
  execute true ((src, dst) :: rest) k w
  = match rename_fs (w_fs w) src dst with
    | Ok fs' =>
        execute true rest (renamed_one k)
          {| w_fs := fs';
             w_log := w_log w ++ [ERename src dst;
                                  EPrint (MRename (name_of src) (name_of dst))] |}
    | Err e =>
        execute true rest (failed k)
          {| w_fs := w_fs w;
             w_log := w_log w ++ [ERename src dst;
                                  EPrint (MError (name_of src) e)] |}
    end.
Proof.
  intros Hfree. cbn [execute]. rewrite bind_unfold. cbn [path_exists].
  rewrite Hfree. rewrite bind_unfold.
  unfold try, rename. rewrite bind_unfold. cbn [emit].
  unfold sys_rename, log. cbn [w_fs w_log].
  destruct (rename_fs (w_fs w) src dst) as [fs'|e];
    rewrite bind_unfold; cbn [print emit]; unfold log; cbn [w_fs w_log];
    by rewrite <- app_assoc.
Qed.






End ExecuteFacts.

(** ** Plans *)

Section PlanFacts.
Context (db : unicode_db).
Implicit Types (fs : gmap (list (list N)) node) (p : list (list N)).

(** The scan lists regular files of the file system, each once. *)
Lemma iter_files_of_spec fs root recursive :
  NoDup (iter_files_of fs root recursive)
  /\ forall p, p ∈ iter_files_of fs root recursive ->
       exists c, fs !! p = Some (File c).
Proof.
  unfold iter_files_of. split.
  - eapply sublist_NoDup; [apply (NoDup_fst_map_to_list fs)|].
    apply fmap_sublist, sublist_filter.
  - intros p ([q n] & -> & [Hf Hin]%list_elem_of_filter)%list_elem_of_fmap.
    apply elem_of_map_to_list in Hin. simpl in *.
    apply andb_prop in Hf as [Hf _]. unfold is_file_entry in Hf. simpl in Hf.
    destruct n as [c|]; [by exists c|done].
Qed.

Lemma with_name_Ok p name dst :
  with_name p name = Ok dst ->
  dst = parent p ++ [name] /\ parent dst = parent p /\ name_of dst = name.
Proof.
  unfold with_name. destruct (bool_decide _); [done|].
  destruct (_ || _); [done|]. intros [= <-]. repeat split.
  - unfold parent. by rewrite removelast_last.
  - unfold name_of. by rewrite last_snoc.
Qed.

(** The entries of a plan are files of the scan, in its order, each with a
    target of another name in the same directory. *)
Lemma collect_loop_plan files pattern mode replacement : forall changes total plan n,
  collect_loop db files pattern mode replacement changes total = Ok (plan, n) ->
  exists new,
    plan = changes ++ new
    /\ sublist new.*1 files
    /\ Forall (fun e => e.2 <> e.1 /\ parent e.2 = parent e.1) new.
Proof.
  induction files as [|p files IH]; intros changes total plan n H.
  - simpl in H. injection H as <- <-. exists []. by rewrite app_nil_r.
  - simpl in H. destruct (propose_new_name _ _ _ _ _) as [new_name|]; [|done].
    simpl in H. destruct (bool_decide (new_name ≠ name_of p)) eqn:E.
    + destruct (with_name p new_name) as [dst|] eqn:Hw; [|done]. simpl in H.
      destruct (IH _ _ _ _ H) as (new & -> & Hsub & Hall).
      apply with_name_Ok in Hw as (_ & Hpar & Hname).
      exists ((p, dst) :: new). rewrite <- app_assoc. repeat split.
      * simpl. by apply sublist_skip.
      * constructor; [|done]. simpl. split; [|done].
        apply bool_decide_eq_true in E. intros ->. by apply E.
    + destruct (IH _ _ _ _ H) as (new & -> & Hsub & Hall).
      exists new. repeat split; [|done]. by apply sublist_cons.
Qed.


End PlanFacts.

(** ** First come, first served *)

Section FirstWins.
Implicit Types (w : world) (k : counters).




End FirstWins.



(** ** The order of events *)

Section LogFacts.
Context (db : unicode_db) (env : Env).

Lemma appends_bind {A B} (c : M A) (k : A -> M B) :
  appends c -> (forall a, appends (k a)) -> appends (c ≫= k).
Proof.
  intros Hc Hk w. rewrite bind_unfold. destruct (Hc w) as [evs Hlog].
  destruct (c w) as [[a|e|n] w']; simpl in *; [|by eauto..].
  destruct (Hk a w') as [evs' Hlog']. exists (evs ++ evs').
  by rewrite Hlog', Hlog, app_assoc.
Qed.

Lemma frame_appends {A} (c : M A) : frame c -> appends c.
Proof. intros H w. destruct (H w) as (_ & evs & Hlog & _). by exists evs. Qed.

Lemma appends_ret {A} (a : A) : appends (mret a : M A).
Proof. apply frame_appends, frame_ret. Qed.

Lemma appends_print m : appends (print m).
Proof. apply frame_appends, frame_print. Qed.

Lemma appends_rename src dst : appends (rename src dst).
Proof.
  intros w. unfold rename. rewrite bind_unfold. cbn [emit].
  unfold sys_rename. destruct (rename_fs _ _ _); by exists [ERename src dst].
Qed.

Lemma appends_try {A} (c : M A) : appends c -> appends (try c).
Proof.
  intros H w. destruct (H w) as [evs Hlog]. unfold try.
  destruct (c w) as [[a|e|n] w']; by exists evs.
Qed.

Lemma appends_execute apply changes : forall k, appends (execute apply changes k).
Proof.
  induction changes as [|[src dst] changes IH]; intros k; [apply appends_ret|].
  cbn [execute]. apply appends_bind; [apply frame_appends, frame_path_exists|].
  intros ex. destruct (ex && _).
  { apply appends_bind; [apply appends_print|done]. }
  destruct apply.
  - apply appends_bind; [apply appends_try, appends_rename|].
    intros [u|e]; (apply appends_bind; [apply appends_print|done]).
  - apply appends_bind; [apply appends_print|done].
Qed.

Lemma scans_first_iter_files root recursive :
  scans_first root recursive (iter_files root recursive).
Proof. intros w. by exists []. Qed.

Lemma scans_first_bind {A B} root recursive (c : M A) (k : A -> M B) :
  scans_first root recursive c -> (forall a, appends (k a)) ->
  scans_first root recursive (c ≫= k).
Proof.
  intros Hc Hk w. rewrite bind_unfold. destruct (Hc w) as [evs Hlog].
  destruct (c w) as [[a|e|n] w']; simpl in *; [|by eauto..].
  destruct (Hk a w') as [evs' Hlog']. exists (evs ++ evs').
  by rewrite Hlog', Hlog, <- app_assoc.
Qed.

Lemma scans_first_after_pass {B} root recursive (c : M B) :
  scans_first root recursive c ->
  scans_first root recursive (pass ≫= fun _ => c).
Proof. intros H w. apply H. Qed.

Lemma appends_execute_and_report root args plan :
  appends (execute_and_report root args plan).
Proof.
  unfold execute_and_report.
  apply appends_bind; [apply appends_print|]. intros _.
  destruct (bool_decide _); [apply appends_print|].
  apply appends_bind.
  { destruct (apply args); [apply appends_ret|apply appends_print]. }
  intros _. apply appends_bind; [apply appends_execute|]. intros k.
  apply appends_bind; [apply appends_print|]. intros _.
  destruct (apply args); [apply appends_ret|apply appends_print].
Qed.

(** Past the gate the run starts by scanning the target. *)
Lemma plan_and_execute_scans root args :
  scans_first root (recursive args) (plan_and_execute db root args).
Proof.
  unfold plan_and_execute. destruct (list_matches args).
  - apply scans_first_bind.
    + apply scans_first_bind; [apply scans_first_iter_files|]. intros files.
      apply appends_bind; [apply frame_appends, frame_print_matches|].
      intros [|]; [apply appends_ret|apply appends_print].
    + intros _.
      apply appends_bind; [apply frame_appends, frame_collect_changes|].
      intros plan. apply appends_execute_and_report.
  - apply scans_first_after_pass, scans_first_bind.
    + unfold collect_changes.
      apply scans_first_bind; [apply scans_first_iter_files|].
      intros files. apply frame_appends, frame_lift.
    + intros plan. apply appends_execute_and_report.
Qed.

End LogFacts.

(** ** The safety gate *)

(** The gate is reached only when [main] has resolved the target itself:
    an exception of that first resolution is not caught and ends the run. *)
Lemma main_target_unresolved (db : unicode_db) (env : Env) (args : Args)
  (w : world) :
  env_resolve env (target args) = None ->
  main db env args w = (Raised OSError, w).
Proof. intros H. unfold main, resolve. by rewrite H. Qed.



(** ** Where a pattern matches *)

Section OccurrenceFacts.
Context (db : unicode_db).
Implicit Types (s t phrase pre post occ : list N) (ps : list (atom * rep)).

Lemma run_length_le ic a t : run_length db ic a t <= length t.
Proof.
  induction t as [|c t IH]; simpl; [done|].
  destruct (accepts db ic a c); lia.
Qed.

Lemma backtrack_bound (rest : list N -> option nat) n t : forall j r,
  (forall u m, rest u = Some m -> m <= length u) ->
  j <= length t -> backtrack rest n t j = Some r -> r <= length t.
Proof.
  induction j as [|j IH]; intros r Hrest Hj; simpl.
  - destruct (0 <? n); [done|]. rewrite drop_0.
    destruct (rest t) as [m|] eqn:E; [|done]. intros [= <-].
    by apply Hrest.
  - destruct (S j <? n); [done|].
    destruct (rest (drop (S j) t)) as [m|] eqn:E.
    + intros [= <-]. apply Hrest in E. rewrite length_drop in E. lia.
    + apply IH; [done|lia].
Qed.

(** A match never reaches beyond the text. *)
Lemma match_here_bound ic ps : forall t n,
  match_here db ic ps t = Some n -> n <= length t.
Proof.
  induction ps as [|[a [|k]] ps IH]; intros t n; simpl.
  - intros [= <-]. lia.
  - destruct t as [|c t]; [done|]. destruct (accepts db ic a c); [|done].
    destruct (match_here db ic ps t) as [m|] eqn:E; [|done].
    intros [= <-]. apply IH in E. simpl. lia.
  - apply backtrack_bound; [apply IH|apply run_length_le].
Qed.

Lemma search_Some ic ps : forall t b n,
  search db ic ps t = Some (b, n) ->
  b <= length t /\ match_here db ic ps (drop b t) = Some n.
Proof.
  induction t as [|c t IH]; intros b n; simpl.
  - destruct (match_here db ic ps []) eqn:E; [|done].
    intros [= <- <-]. split; [simpl; lia|done].
  - destruct (match_here db ic ps (c :: t)) eqn:E.
    + intros [= <- <-]. split; [lia|]. by rewrite drop_0.
    + destruct (search db ic ps t) as [[b' n']|] eqn:Es; [|done].
      intros [= <- <-]. destruct (IH b' n' eq_refl) as [Hb Hm].
      split; [lia|done].
Qed.

Lemma search_found ic ps : forall t i n,
  match_here db ic ps (drop i t) = Some n -> is_Some (search db ic ps t).
Proof.
  induction t as [|c t IH]; intros i n H.
  - rewrite drop_nil in H. simpl. by rewrite H.
  - simpl. destruct (match_here db ic ps (c :: t)) eqn:E; [done|].
    destruct i as [|i]; [rewrite drop_0 in H; congruence|].
    simpl in H. destruct (IH i n H) as [[b m] ->]. done.
Qed.

(** A pattern of single characters matches at the head of the text exactly
    when its atoms accept the first characters one by one. *)
Lemma match_once_iff ic ps :
  Forall (fun pc => pc.2 = Once) ps ->
  forall t n,
    match_here db ic ps t = Some n
    <-> n = length ps
        /\ exists occ post,
             t = occ ++ post
             /\ Forall2 (fun pc c => accepts db ic pc.1 c = true) ps occ.
Proof.
  induction 1 as [|[a r] ps Hr _ IH]; intros t n; simpl in *.
  - split.
    + intros [= <-]. split; [done|]. by exists [], t.
    + intros [-> (occ & post & -> & Hf)]. done.
  - subst r. split.
    + destruct t as [|c t]; [done|].
      destruct (accepts db ic a c) eqn:Ha; [|done].
      destruct (match_here db ic ps t) as [m|] eqn:Hm; [|done].
      intros [= <-]. apply IH in Hm as [-> (occ & post & -> & Hf)].
      split; [done|]. exists (c :: occ), post. split; [done|].
      by constructor.
    + intros [-> (occ & post & -> & Hf)].
      inversion Hf as [|pc c ps' occ' Ha Hf']; subst. simpl in *.
      rewrite Ha.
      assert (match_here db ic ps (occ' ++ post) = Some (length ps)) as ->; [|done].
      apply IH. split; [done|]. by exists occ', post.
Qed.

Lemma search_once_iff ic ps t :
  Forall (fun pc => pc.2 = Once) ps ->
  is_Some (search db ic ps t)
  <-> exists pre occ post,
        t = pre ++ occ ++ post
        /\ Forall2 (fun pc c => accepts db ic pc.1 c = true) ps occ.
Proof.
  intros Hps. split.
  - intros [[b n] Hs]. apply search_Some in Hs as [Hb Hm].
    apply match_once_iff in Hm as [-> (occ & post & Hd & Hf)]; [|done].
    exists (take b t), occ, post. split; [|done].
    by rewrite <- Hd, take_drop.
  - intros (pre & occ & post & -> & Hf).
    apply (search_found ic ps _ (length pre) (length ps)).
    rewrite drop_app_length. apply match_once_iff; [done|].
    split; [done|]. by exists occ, post.
Qed.

Lemma escaped_accepts phrase occ :
  Forall2 (fun pc c => accepts db false pc.1 c = true) (escaped phrase) occ
  <-> occ = phrase.
Proof.
  unfold escaped. split.
  - revert occ. induction phrase as [|p phrase IH]; intros occ Hf.
    + by inversion Hf.
    + inversion Hf as [|pc c ps' occ' Ha Hf']; subst. simpl in Ha.
      apply lit_accepts_plain in Ha as ->. f_equal. by apply IH.
  - intros ->. induction phrase as [|p phrase IH]; constructor; [|done].
    simpl. apply lit_accepts_refl.
Qed.

Lemma escaped_accepts_self ic phrase :
  Forall2 (fun pc c => accepts db ic pc.1 c = true) (escaped phrase) phrase.
Proof.
  unfold escaped. induction phrase as [|p phrase IH]; constructor; [|done].
  simpl. apply lit_accepts_refl.
Qed.

Lemma loose_piece_accepts ic p c :
  (ic = true -> plain_classes db) ->
  loosely p c = true -> accepts db ic (loose_piece p).1 c = true.
Proof.
  intros Hic. unfold loosely, loose_piece.
  destruct (existsb (N.eqb p) HYPHENS) eqn:Eh.
  - intros H. apply hyphens_class_accepts_ic; [done|].
    by apply existsb_eqb_elem.
  - rewrite spacing_is_space. destruct (py_isspace p).
    + intros H. by apply spaces_class_accepts_ic.
    + intros ->%N.eqb_eq. apply lit_accepts_refl.
Qed.

Lemma loose_piece_accepts_plain p c :
  accepts db false (loose_piece p).1 c = loosely p c.
Proof.
  unfold loosely, loose_piece.
  destruct (existsb (N.eqb p) HYPHENS) eqn:Eh.
  - cbn [fst accepts]. apply class_chars_accepts.
  - rewrite spacing_is_space. destruct (py_isspace p) eqn:Es.
    + apply eq_true_iff_eq. by rewrite spaces_class_accepts.
    + done.
Qed.

Lemma loose_accepts phrase occ :
  Forall2 (fun pc c => accepts db false pc.1 c = true)
    (map loose_piece phrase) occ
  <-> Forall2 (fun p c => loosely p c = true) phrase occ.
Proof.
  rewrite Forall2_fmap_l.
  split; intros H; (eapply Forall2_impl; [exact H|]); intros p c; simpl;
    by rewrite loose_piece_accepts_plain.
Qed.

End OccurrenceFacts.

(** X1.  Without [--loose] and without [-i] the pattern of [build_pattern]
    finds a name exactly when the phrase stands in it character for
    character, whatever regex metacharacters the phrase holds.  With [-i]
    it still finds every such name. *)
Theorem X1_strict_pattern_finds_literal (db : unicode_db) (phrase t : list N) :
  (pattern_search db (build_pattern db phrase false false) t = true
   <-> occurs phrase t)
  /\ (occurs phrase t ->
      pattern_search db (build_pattern db phrase true false) t = true).
Proof.
  unfold pattern_search, build_pattern, occurs. cbn [negb pat_ignorecase pat_pieces].
  split.
  - rewrite bool_decide_eq_true.
    rewrite (search_once_iff db false _ t (escaped_all_once phrase)).
    split.
    + intros (pre & occ & post & -> & ->%escaped_accepts). by exists pre, post.
    + intros (pre & post & ->). exists pre, phrase, post. split; [done|].
      by apply escaped_accepts.
  - intros (pre & post & ->). apply bool_decide_eq_true.
    apply (search_once_iff db true _ _ (escaped_all_once phrase)).
    exists pre, phrase, post. split; [done|]. apply escaped_accepts_self.
Qed.

(** X2.  With [--loose] and without [-i] the pattern finds a name exactly
    when it holds the NFKC form of the phrase up to the choice of the hyphen
    and of the whitespace character at each position.  With [-i] it still
    finds every such name, provided the case tables leave the characters of
    the two classes alone. *)
Theorem X2_loose_pattern_finds_variants (db : unicode_db) (phrase t : list N)
  (ic : bool) :
  (pattern_search db (build_pattern db phrase false true) t = true
   <-> occurs_loosely (u_nfkc db phrase) t)
  /\ ((ic = true -> plain_classes db) ->
      occurs_loosely (u_nfkc db phrase) t ->
      pattern_search db (build_pattern db phrase ic true) t = true).
Proof.
  unfold pattern_search, build_pattern, occurs_loosely.
  cbn [negb pat_ignorecase pat_pieces]. split.
  - rewrite bool_decide_eq_true.
    rewrite (search_once_iff db false _ t (loose_all_once _)).
    split; intros (pre & occ & post & -> & Hf); exists pre, occ, post;
      (split; [done|]); by apply (loose_accepts db).
  - intros Hic (pre & occ & post & -> & Hf). apply bool_decide_eq_true.
    apply (search_once_iff db ic _ _ (loose_all_once _)).
    exists pre, occ, post. split; [done|]. rewrite Forall2_fmap_l.
    eapply Forall2_impl; [exact Hf|]. intros p c Hpc. simpl.
    by apply loose_piece_accepts.
Qed.



(** A literal of the strict pattern and the piece the loose pattern makes
    of the same character. *)
Lemma loose_piece_extends (db : unicode_db) (ic : bool) (p c : N) :
  (ic = true ->
   plain_classes db /\ forall q, py_isspace q = true -> u_iscased db q = false) ->
  accepts db ic (ALit p) c = true ->
  accepts db ic (loose_piece p).1 c = true.
Proof.
  intros Hic Ha.
  assert (ic = true -> plain_classes db) as Hpl by (intros H; by apply Hic).
  unfold loose_piece. destruct (existsb (N.eqb p) HYPHENS) eqn:Eh.
  - apply existsb_eqb_elem in Eh. cbn [fst].
    apply hyphens_class_accepts_ic; [done|].
    assert (c = p) as ->; [|done].
    simpl in Ha. unfold lit_accepts in Ha. destruct ic; simpl in Ha.
    + destruct (Hic eq_refl) as [Hp _]. unfold plain_classes in Hp.
      rewrite Forall_forall in Hp.
      destruct (Hp p) as (Hc & _); [apply elem_of_app; by left|].
      rewrite Hc in Ha. by apply N.eqb_eq.
    + by apply N.eqb_eq.
  - rewrite spacing_is_space. destruct (py_isspace p) eqn:Es; [|done].
    cbn [fst]. apply spaces_class_accepts_ic; [done|].
    assert (c = p) as ->; [|done].
    simpl in Ha. unfold lit_accepts in Ha. destruct ic; simpl in Ha.
    + destruct (Hic eq_refl) as [_ Hs]. rewrite (Hs p Es) in Ha.
      by apply N.eqb_eq.
    + by apply N.eqb_eq.
Qed.

(** The ASCII tables leave the dashes and the whitespace alone. *)
Lemma ascii_db_plain_classes : plain_classes ascii_db.
Proof. unfold plain_classes. repeat constructor. Qed.

Lemma ascii_db_spaces_uncased (q : N) :
  py_isspace q = true -> u_iscased ascii_db q = false.
Proof.
  unfold py_isspace. simpl. intros H. apply not_true_is_false. intros Hc.
  rewrite !orb_true_iff, !andb_true_iff, !N.leb_le, !N.eqb_eq in *. lia.
Qed.

(** X3.  Loose matching extends strict matching: for a phrase that NFKC
    leaves as it is, every name the strict pattern finds the loose pattern
    finds too, with and without [-i]. *)
Theorem X3_loose_extends_strict (db : unicode_db) (phrase t : list N)
  (ic : bool) :
  u_nfkc db phrase = phrase ->
  (ic = true ->
   plain_classes db /\ forall q, py_isspace q = true -> u_iscased db q = false) ->
  pattern_search db (build_pattern db phrase ic false) t = true ->
  pattern_search db (build_pattern db phrase ic true) t = true.
Proof.
  intros Hn Hic. unfold pattern_search, build_pattern.
  cbn [negb pat_ignorecase pat_pieces]. rewrite Hn, !bool_decide_eq_true.
  rewrite (search_once_iff db ic _ t (escaped_all_once phrase)).
  rewrite (search_once_iff db ic _ t (loose_all_once phrase)).
  intros (pre & occ & post & -> & Hf). exists pre, occ, post.
  split; [done|]. unfold escaped in Hf.
  rewrite Forall2_fmap_l in Hf |- *.
  eapply Forall2_impl; [exact Hf|]. intros p c Hpc. simpl in Hpc |- *.
  by apply loose_piece_extends.
Qed.

Lemma X3_loose_extends_strict_witness :
  pattern_search ascii_db (build_pattern ascii_db (lit "(Z-Library)") true true)
    (lit "a (z-library).pdf") = true.
Proof.
  apply (X3_loose_extends_strict ascii_db (lit "(Z-Library)")
           (lit "a (z-library).pdf") true).
  - reflexivity.
  - intros _. split; [apply ascii_db_plain_classes|apply ascii_db_spaces_uncased].
  - vm_compute. reflexivity.
Defined.

(** ** Deleting *)

Section DeleteFacts.
Context (db : unicode_db).
Implicit Types (s t : list N) (ps : list (atom * rep)).

(** Substituting the empty string only removes characters. *)
Lemma subx_delete_sublist ic ps : forall fuel t,
  subx db fuel ic ps (fun _ => []) t `sublist_of` t.
Proof.
  induction fuel as [|fuel IH]; intros t; [done|].
  rewrite subx_S. destruct (search db ic ps t) as [[b n]|]; [|done].
  cbn [app]. rewrite <- (take_drop b t) at 3.
  apply sublist_app; [done|].
  transitivity (drop (b + n) t).
  - destruct (drop (b + n) t) as [|c rest] eqn:Ed; [done|].
    destruct (n =? 0); [by apply sublist_skip|apply IH].
  - rewrite <- drop_drop. apply sublist_drop.
Qed.

Lemma sub_delete_sublist ic ps t :
  sub db ic ps (fun _ => []) t `sublist_of` t.
Proof. apply subx_delete_sublist. Qed.

(** Deleting a match that is not empty shortens the text. *)
Lemma sub_delete_shorter ic ps t b n :
  search db ic ps t = Some (b, n) -> 0 < n ->
  length (sub db ic ps (fun _ => []) t) < length t.
Proof.
  intros Hs Hn. unfold sub. rewrite subx_S, Hs. cbn [app].
  destruct (search_Some db ic ps t b n Hs) as [Hb Hm].
  apply match_here_bound in Hm. rewrite length_drop in Hm.
  rewrite length_app, length_take.
  assert (length
            match drop (b + n) t with
            | [] => []
            | c :: rest' =>
                if n =? 0 then c :: subx db (length t) ic ps (fun _ => []) rest'
                else subx db (length t) ic ps (fun _ => []) (drop (b + n) t)
            end <= length (drop (b + n) t)) as Hle.
  { destruct (drop (b + n) t) as [|c rest] eqn:Ed; [done|].
    destruct (n =? 0) eqn:En; [apply Nat.eqb_eq in En; lia|].
    apply sublist_length, subx_delete_sublist. }
  rewrite length_drop in Hle. lia.
Qed.

Lemma collapse_sublist s : collapse_spaces s `sublist_of` s.
Proof.
  induction s as [|c s IH]; [done|]. simpl.
  destruct ((c =? SPACE)%N && starts_with SPACE s);
    [by apply sublist_cons|by apply sublist_skip].
Qed.

Lemma dsbd_sublist s : drop_space_before_dot s `sublist_of` s.
Proof.
  induction s as [|c s IH]; [done|]. simpl.
  destruct ((c =? SPACE)%N && starts_with DOT s);
    [by apply sublist_cons|by apply sublist_skip].
Qed.

Lemma strip_sublist s : strip s `sublist_of` s.
Proof.
  unfold strip. transitivity (lstrip s).
  - destruct (rstrip_prefix (lstrip s)) as (w & Hw & _).
    rewrite Hw at 2. by apply sublist_inserts_r.
  - destruct (lstrip_suffix s) as (w & Hw & _).
    rewrite Hw at 2. by apply sublist_inserts_l.
Qed.

Lemma ink_sublist s t : s `sublist_of` t -> ink s `sublist_of` ink t.
Proof.
  unfold ink. induction 1 as [|c s t _ IH|c s t _ IH]; [done|..].
  - rewrite !filter_cons. destruct (decide (py_isspace c = false));
      [by apply sublist_skip|done].
  - rewrite filter_cons. destruct (decide (py_isspace c = false));
      [by apply sublist_cons|done].
Qed.

(** The Normalizer turns whitespace into spaces and removes characters;
    it adds none. *)
Lemma normalize_spaces_sublist s :
  normalize_spaces db s `sublist_of` map to_space s.
Proof.
  rewrite normalize_spaces_steps. unfold spec_normalize.
  etransitivity; [apply strip_sublist|].
  etransitivity; [apply dsbd_sublist|]. apply collapse_sublist.
Qed.

Lemma normalize_spaces_length s :
  length (normalize_spaces db s) <= length s.
Proof.
  rewrite <- (length_map to_space s).
  apply sublist_length, normalize_spaces_sublist.
Qed.

End DeleteFacts.

(** X4.  In delete mode a proposal is always made, whatever the pattern and
    whatever the replacement argument holds, and it only removes: the
    proposed name is the old name with whitespace characters turned into
    spaces and some characters left out.  It is never longer than the old
    name and its non-spacing content is a subsequence of the old one. *)
Theorem X4_delete_only_removes (db : unicode_db) (name : list N)
  (pattern : Pattern) (ignored : list N) :
  exists r,
    propose_new_name db name pattern (lit "delete") ignored = Ok r
    /\ r `sublist_of` map to_space name
    /\ length r <= length name
    /\ ink r `sublist_of` ink name.
Proof.
  set (d := sub db (pat_ignorecase pattern) (pat_pieces pattern) (fun _ => []) name).
  exists (normalize_spaces db d). split; [reflexivity|].
  assert (d `sublist_of` name) as Hd by apply sub_delete_sublist.
  assert (normalize_spaces db d `sublist_of` map to_space name) as Hs.
  { etransitivity; [apply normalize_spaces_sublist|]. by apply fmap_sublist. }
  split; [exact Hs|]. split.
  - apply sublist_length in Hs. by rewrite length_map in Hs.
  - rewrite <- (ink_to_space name). by apply ink_sublist.
Qed.

(** Deleting the occurrences of a phrase that is not empty from a name that
    has one gives a shorter name. *)
Lemma propose_delete_shorter (db : unicode_db) (phrase name : list N)
  (ic loose : bool) (ignored : list N) :
  (if loose then u_nfkc db phrase else phrase) <> [] ->
  pattern_search db (build_pattern db phrase ic loose) name = true ->
  exists r,
    propose_new_name db name (build_pattern db phrase ic loose)
      (lit "delete") ignored = Ok r
    /\ length r < length name /\ r <> name.
Proof.
  intros Hne Hs. set (p := build_pattern db phrase ic loose) in *.
  exists (normalize_spaces db
            (sub db (pat_ignorecase p) (pat_pieces p) (fun _ => []) name)).
  split; [reflexivity|].
  apply bool_decide_eq_true in Hs as [[b n] Hs].
  assert (0 < n) as Hn.
  { destruct (search_Some db _ _ _ _ _ Hs) as [_ Hm].
    assert (Forall (fun pc : atom * rep => pc.2 = Once) (pat_pieces p)) as Hall.
    { unfold p, build_pattern. destruct loose; simpl;
        [apply loose_all_once|apply escaped_all_once]. }
    apply (match_once_iff db _ _ Hall) in Hm as [-> _].
    unfold p, build_pattern. destruct loose; simpl; unfold escaped;
      rewrite length_map; destruct (_ : list N); simpl; [done|lia|done|lia]. }
  pose proof (sub_delete_shorter db _ _ _ _ _ Hs Hn) as Hlt.
  pose proof (normalize_spaces_length db
                (sub db (pat_ignorecase p) (pat_pieces p) (fun _ => []) name)) as Hle.
  assert (length (normalize_spaces db
            (sub db (pat_ignorecase p) (pat_pieces p) (fun _ => []) name))
          < length name) as H by lia.
  split; [exact H|]. intros E. rewrite E in H. lia.
Qed.

(** X5.  In delete mode every name the pattern of a non-empty phrase finds
    gets a strictly shorter proposal, hence a different one: a file listed
    by the matching pass is a file the planner wants to rename. *)
Theorem X5_delete_shortens_matches (db : unicode_db) (phrase name : list N)
  (ic loose : bool) (ignored : list N) :
  (if loose then u_nfkc db phrase else phrase) <> [] ->
  pattern_search db (build_pattern db phrase ic loose) name = true ->
  exists r,
    propose_new_name db name (build_pattern db phrase ic loose)
      (lit "delete") ignored = Ok r
    /\ length r < length name /\ r <> name.
Proof. apply propose_delete_shorter. Qed.

Lemma X5_delete_shortens_matches_witness :
  exists r,
    propose_new_name ascii_db (lit "a (Z-Library).pdf")
      (build_pattern ascii_db (lit "(Z-Library)") false true)
      (lit "delete") [] = Ok r
    /\ length r < length (lit "a (Z-Library).pdf")
    /\ r <> lit "a (Z-Library).pdf".
Proof.
  apply (X5_delete_shortens_matches ascii_db (lit "(Z-Library)")
           (lit "a (Z-Library).pdf") false true []).
  - discriminate.
  - vm_compute. reflexivity.
Defined.

(** ** The empty phrase, templates, fixed points *)

Section EdgeFacts.
Context (db : unicode_db).
Implicit Types (s t : list N) (ps : list (atom * rep)) (f g : list N -> list N).

Lemma search_empty_pattern ic t : search db ic [] t = Some (0, 0).
Proof. by destruct t. Qed.

(** The empty pattern matches before every character and at the end. *)
Lemma subx_empty_pattern ic f : forall fuel t,
  length t < fuel ->
  subx db fuel ic [] f t = f [] ++ flat_map (fun c => c :: f []) t.
Proof.
  induction fuel as [|fuel IH]; intros t Hlen; [lia|].
  rewrite subx_S, search_empty_pattern. cbn [Nat.add]. rewrite !drop_0, !take_0.
  cbn [app]. destruct t as [|c t]; [done|].
  cbn [Nat.eqb flat_map app]. simpl in Hlen. rewrite IH by lia. done.
Qed.

Lemma flat_map_singleton t : flat_map (fun c => [c]) t = t.
Proof. induction t as [|c t IH]; [done|]. simpl. by rewrite IH. Qed.

(** The substitution depends on the replacement function by its values
    only. *)
Lemma subx_ext ic ps f g :
  (forall m, f m = g m) ->
  forall fuel t, subx db fuel ic ps f t = subx db fuel ic ps g t.
Proof.
  intros Hfg. induction fuel as [|fuel IH]; intros t; [done|].
  rewrite !subx_S. destruct (search db ic ps t) as [[b n]|]; [|done].
  rewrite Hfg. do 2 f_equal.
  destruct (drop (b + n) t); [done|]. destruct (n =? 0); by rewrite IH.
Qed.

Lemma existsb_double_backslashes (r : list N) :
  existsb (N.eqb BACKSLASH) r = false -> double_backslashes r = r.
Proof.
  induction r as [|c r IH]; [done|]. cbn [existsb].
  intros [Hc Hr]%orb_false_iff. rewrite N.eqb_sym in Hc.
  unfold double_backslashes. cbn [flat_map]. rewrite Hc.
  fold (double_backslashes r). by rewrite IH.
Qed.

Lemma parse_double_backslashes (r : list N) :
  parse_template (double_backslashes r) = Some (map TChar r).
Proof.
  induction r as [|c r IH]; [done|].
  unfold double_backslashes. cbn [flat_map].
  fold (double_backslashes r).
  destruct (c =? BACKSLASH)%N eqn:Ec.
  - apply N.eqb_eq in Ec as ->. cbn [app]. simpl. by rewrite IH.
  - cbn [app]. simpl. rewrite Ec. simpl. by rewrite IH.
Qed.

Lemma expand_chars (r m : list N) : expand_template (map TChar r) m = r.
Proof.
  unfold expand_template. induction r as [|c r IH]; [done|].
  simpl. by rewrite IH.
Qed.

(** A replacement with its backslashes doubled stands for itself. *)
Lemma compile_double_backslashes (r : list N) :
  exists f, compile_template (double_backslashes r) = Ok f /\ forall m, f m = r.
Proof.
  unfold compile_template.
  destruct (existsb (N.eqb BACKSLASH) (double_backslashes r)) eqn:E.
  - rewrite parse_double_backslashes. eexists. split; [done|].
    intros m. apply expand_chars.
  - eexists. split; [done|]. intros m. cbv beta.
    apply existsb_double_backslashes.
    apply not_true_is_false. intros Hr.
    apply existsb_exists in Hr as (c & Hc & Ec%N.eqb_eq). subst c.
    apply not_true_iff_false in E. apply E.
    apply existsb_exists. exists BACKSLASH. split; [|done].
    apply in_flat_map. exists BACKSLASH. split; [done|]. simpl. by left.
Qed.

(** The names the Normalizer leaves alone are the names in normal form. *)
Lemma normalize_fixed_iff s : normalize_spaces db s = s <-> normal s.
Proof.
  rewrite normalize_spaces_steps. split.
  - intros <-. apply normal_spec_normalize.
  - apply normal_fixed.
Qed.

End EdgeFacts.

(** X6.  The pattern of the empty phrase matches every name, at every
    position.  In delete mode the proposal is then the normalized name; a
    replacement is inserted before every character of the name and at its
    end. *)
Theorem X6_empty_phrase (db : unicode_db) (ic : bool) (name repl ignored : list N) :
  pattern_search db (build_pattern db [] ic false) name = true
  /\ propose_new_name db name (build_pattern db [] ic false) (lit "delete")
       ignored
     = Ok (normalize_spaces db name)
  /\ pattern_sub db (build_pattern db [] ic false) repl name
     = rbind (compile_template repl) (fun f =>
         Ok (f [] ++ flat_map (fun c => c :: f []) name)).
Proof.
  unfold propose_new_name, pattern_sub, pattern_search, build_pattern.
  cbn [negb pat_ignorecase pat_pieces escaped map].
  split; [|split].
  - by rewrite search_empty_pattern.
  - destruct (decide (lit "delete" = lit "delete")) as [_|E]; [|by destruct E].
    unfold compile_template. cbn [existsb rbind].
    unfold sub. rewrite subx_empty_pattern by lia.
    cbn [app]. by rewrite flat_map_singleton.
  - destruct (compile_template repl) as [f|e]; [|done]. cbn [rbind].
    unfold sub. by rewrite subx_empty_pattern by lia.
Qed.

(** X7.  In replace mode a replacement without a backslash is substituted
    as it is, and so is any replacement once each of its backslashes is
    doubled: both proposals are the normalized name with every match
    replaced by the text [r]. *)
Theorem X7_literal_replacement (db : unicode_db) (name r : list N)
  (pattern : Pattern) :
  propose_new_name db name pattern (lit "replace") (double_backslashes r)
  = Ok (normalize_spaces db
          (sub db (pat_ignorecase pattern) (pat_pieces pattern) (fun _ => r) name))
  /\ (existsb (N.eqb BACKSLASH) r = false ->
      propose_new_name db name pattern (lit "replace") r
      = Ok (normalize_spaces db
              (sub db (pat_ignorecase pattern) (pat_pieces pattern)
                 (fun _ => r) name))).
Proof.
  unfold propose_new_name, pattern_sub.
  destruct (decide (lit "replace" = lit "delete")) as [E|_]; [discriminate E|].
  split.
  - destruct (compile_double_backslashes r) as (f & -> & Hf). cbn [rbind].
    do 2 f_equal. by apply subx_ext.
  - intros Hr. unfold compile_template. by rewrite Hr.
Qed.

(** X8.  The Normalizer is idempotent, and the names it leaves unchanged are
    exactly the names in normal form: every whitespace character an ASCII
    space followed by a non-space character, no space before a period, no
    whitespace at either end. *)
Theorem X8_normalize_fixed_points (db : unicode_db) (s : list N) :
  normalize_spaces db (normalize_spaces db s) = normalize_spaces db s
  /\ (normalize_spaces db s = s <-> normal s).
Proof.
  split.
  - apply normalize_fixed_iff. rewrite normalize_spaces_steps.
    apply normal_spec_normalize.
  - apply normalize_fixed_iff.
Qed.

(** X9.  When the replacement compiles and every file in scope has a name in
    normal form that the pattern does not find, the planner proposes no
    change at all and reports the number of files it checked. *)
Theorem X9_normal_unmatched_names_stay (db : unicode_db) (root : list (list N))
  (recursive : bool) (pattern : Pattern) (mode replacement : list N)
  (filter : list N -> list N) (w : world) :
  compile_template (if decide (mode = lit "delete") then [] else replacement)
  = Ok filter ->
  (forall p, p ∈ iter_files_of (w_fs w) root recursive ->
     normal (name_of p) /\ pattern_search db pattern (name_of p) = false) ->
  collect_changes db root recursive pattern mode replacement w
  = (Ret ([], length (iter_files_of (w_fs w) root recursive)),
     log (EScan root recursive) w).
Proof.
  intros Hc H. unfold collect_changes, iter_files, list_files, emit, lift.
  unfold mbind, M_bind. simpl.
  rewrite collect_loop_settled; [done|].
  intros p Hp. destruct (H p Hp) as [Hn Hs].
  rewrite (propose_no_match db _ _ _ _ filter Hc Hs). f_equal.
  by apply normalize_fixed_iff.
Qed.

Lemma X9_normal_unmatched_names_stay_witness :
  collect_changes ascii_db books false tag_pattern (lit "replace") (lit "x")
    (start cleaned_fs)
  = (Ret ([], length (iter_files_of (w_fs (start cleaned_fs)) books false)),
     log (EScan books false) (start cleaned_fs)).
Proof.
  apply (X9_normal_unmatched_names_stay ascii_db books false tag_pattern
           (lit "replace") (lit "x") (fun _ => lit "x") (start cleaned_fs)).
  - reflexivity.
  - intros p Hp. vm_compute in Hp.
    apply elem_of_cons in Hp as [->|Hp];
      [|apply elem_of_cons in Hp as [->|Hp]; [|by apply elem_of_nil in Hp]].
    + split; [|by vm_compute].
      apply (normalize_fixed_iff ascii_db). by vm_compute.
    + split; [|by vm_compute].
      apply (normalize_fixed_iff ascii_db). by vm_compute.
Defined.

(** ** What a plan holds *)

Section PlanContents.
Context (db : unicode_db).
Implicit Types (fs : gmap (list (list N)) node) (p : list (list N)).

(** [collect_changes] is the scan followed by the loop. *)
Lemma collect_changes_unfold root recursive pattern mode replacement w :
  collect_changes db root recursive pattern mode replacement w
  = match collect_loop db (iter_files_of (w_fs w) root recursive) pattern mode
            replacement [] 0 with
    | Ok r => (Ret r, log (EScan root recursive) w)
    | Err e => (Raised e, log (EScan root recursive) w)
    end.
Proof.
  unfold collect_changes, iter_files, list_files. rewrite !bind_unfold.
  cbn [emit]. unfold lift. cbn [log w_fs].
  by destruct (collect_loop _ _ _ _ _ _ _).
Qed.

(** The loop counts every file and adds an entry exactly for the files whose
    proposal is another name; the target is the proposal, in the directory
    of the file. *)
Lemma collect_loop_entries files pattern mode replacement :
  forall changes total plan n,
  collect_loop db files pattern mode replacement changes total = Ok (plan, n) ->
  n = total + length files
  /\ exists new,
       plan = changes ++ new
       /\ Forall (fun e =>
            e.1 ∈ files
            /\ propose_new_name db (name_of e.1) pattern mode replacement
               = Ok (name_of e.2)
            /\ name_of e.2 <> name_of e.1
            /\ e.2 = parent e.1 ++ [name_of e.2]) new
       /\ forall p, p ∈ files ->
            propose_new_name db (name_of p) pattern mode replacement
            <> Ok (name_of p) ->
            p ∈ new.*1.
Proof.
  induction files as [|p files IH]; intros changes total plan n H.
  - simpl in H. injection H as <- <-. split; [simpl; lia|].
    exists []. rewrite app_nil_r. repeat split; [done|].
    intros p Hp. by apply elem_of_nil in Hp.
  - simpl in H.
    destruct (propose_new_name _ _ _ _ _) as [new_name|] eqn:Hprop; [|done].
    simpl in H. destruct (bool_decide (new_name ≠ name_of p)) eqn:E.
    + destruct (with_name p new_name) as [dst|] eqn:Hw; [|done]. simpl in H.
      destruct (IH _ _ _ _ H) as (-> & new & -> & Hall & Hin).
      apply with_name_Ok in Hw as (Hdst & _ & Hname).
      apply bool_decide_eq_true in E.
      split; [simpl; lia|]. exists ((p, dst) :: new).
      rewrite <- app_assoc. split; [done|]. split.
      * constructor.
        -- simpl. rewrite Hname. repeat split; try done.
           apply elem_of_cons. by left.
        -- eapply Forall_impl; [exact Hall|]. intros e (He & ?).
           split; [|done]. apply elem_of_cons. by right.
      * intros q [->|Hq]%elem_of_cons Hne; simpl.
        -- apply elem_of_cons. by left.
        -- apply elem_of_cons. right. by apply Hin.
    + destruct (IH _ _ _ _ H) as (-> & new & -> & Hall & Hin).
      apply bool_decide_eq_false in E. apply dec_stable in E. subst new_name.
      split; [simpl; lia|]. exists new. split; [done|]. split.
      * eapply Forall_impl; [exact Hall|]. intros e (He & ?).
        split; [|done]. apply elem_of_cons. by right.
      * intros q [->|Hq]%elem_of_cons Hne; [done|]. by apply Hin.
Qed.

Lemma with_name_Err p name e : with_name p name = Err e -> e = ValueError.
Proof.
  unfold with_name. destruct (bool_decide _); [by intros [= <-]|].
  destruct (_ || _); [by intros [= <-]|done].
Qed.

(** When the replacement compiles, an invalid proposal for one file stops
    the loop with a [ValueError], wherever the file stands in the scan. *)
Lemma collect_loop_invalid files pattern mode replacement filter p r :
  compile_template (if decide (mode = lit "delete") then [] else replacement)
  = Ok filter ->
  p ∈ files ->
  propose_new_name db (name_of p) pattern mode replacement = Ok r ->
  r <> name_of p ->
  with_name p r = Err ValueError ->
  forall changes total,
    collect_loop db files pattern mode replacement changes total
    = Err ValueError.
Proof.
  intros Hc Hp Hr Hne Hw.
  induction files as [|q files IH]; intros changes total;
    [by apply elem_of_nil in Hp|].
  simpl.
  destruct (propose_new_name db (name_of q) pattern mode replacement)
    as [rq|e] eqn:Hq.
  - simpl. destruct (bool_decide (rq ≠ name_of q)) eqn:E.
    + destruct (with_name q rq) as [dst|e] eqn:Hwq.
      * simpl. apply IH. apply elem_of_cons in Hp as [->|Hp]; [|done].
        rewrite Hr in Hq. injection Hq as <-. congruence.
      * simpl. by rewrite (with_name_Err _ _ _ Hwq).
    + apply IH. apply elem_of_cons in Hp as [->|Hp]; [|done].
      apply bool_decide_eq_false in E. rewrite Hr in Hq. injection Hq as <-.
      by destruct E.
  - unfold propose_new_name, pattern_sub in Hq. by rewrite Hc in Hq.
Qed.

(** The children of a directory, and what lies below it. *)
Lemma in_scope_child root p :
  in_scope false root p = true <-> exists name, p = root ++ [name].
Proof.
  unfold in_scope. rewrite andb_true_iff, bool_decide_eq_true, Nat.eqb_eq.
  split.
  - intros [Ht Hl]. rewrite <- (take_drop (length root) p), Ht.
    assert (length (drop (length root) p) = 1) as Hd
      by (rewrite length_drop; lia).
    destruct (drop (length root) p) as [|name [|? ?]]; try done.
    by exists name.
  - intros [name ->]. rewrite take_app_length, length_app. simpl.
    split; [done|lia].
Qed.

Lemma in_scope_recursive root p :
  in_scope false root p = true -> in_scope true root p = true.
Proof.
  unfold in_scope. rewrite !andb_true_iff, Nat.eqb_eq, Nat.ltb_lt.
  intros [Ht Hl]. split; [done|lia].
Qed.

Lemma iter_files_of_elem fs root recursive p :
  p ∈ iter_files_of fs root recursive
  <-> (exists c, fs !! p = Some (File c)) /\ in_scope recursive root p = true.
Proof.
  unfold iter_files_of. rewrite list_elem_of_fmap. split.
  - intros ([q n] & -> & [Hf Hin]%list_elem_of_filter).
    apply elem_of_map_to_list in Hin. simpl in *.
    apply andb_prop in Hf as [Hf Hs]. unfold is_file_entry in Hf. simpl in Hf.
    destruct n as [c|]; [|done]. split; [by exists c|done].
  - intros [[c Hc] Hs]. exists (p, File c). split; [done|].
    apply list_elem_of_filter. split.
    + simpl. by rewrite Hs.
    + by apply elem_of_map_to_list.
Qed.

End PlanContents.

(** X10.  A plan that [collect_changes] returns comes with the number of
    regular files in scope, whatever the number of entries, which is never
    larger.  The entries follow the order of the scan.  A file of the scan
    has an entry exactly when its proposal is not its name, and the target
    of an entry is the proposed name in the directory of the file. *)
Theorem X10_plan_contents (db : unicode_db) (root : list (list N))
  (recursive : bool) (pattern : Pattern) (mode replacement : list N)
  (w : world) (plan : list (list (list N) * list (list N))) (n : nat) :
  (collect_changes db root recursive pattern mode replacement w).1
  = Ret (plan, n) ->
  n = length (iter_files_of (w_fs w) root recursive)
  /\ length plan <= n
  /\ plan.*1 `sublist_of` iter_files_of (w_fs w) root recursive
  /\ (forall p, p ∈ iter_files_of (w_fs w) root recursive ->
        p ∈ plan.*1
        <-> propose_new_name db (name_of p) pattern mode replacement
            <> Ok (name_of p))
  /\ Forall (fun e =>
       e.1 ∈ iter_files_of (w_fs w) root recursive
       /\ propose_new_name db (name_of e.1) pattern mode replacement
          = Ok (name_of e.2)
       /\ e.2 = parent e.1 ++ [name_of e.2]) plan.
Proof.
  rewrite collect_changes_unfold.
  destruct (collect_loop _ _ _ _ _ _ _) as [[plan' n']|] eqn:H; [|done].
  simpl. intros [= -> ->].
  destruct (collect_loop_plan _ _ _ _ _ _ _ _ _ H) as (new' & E' & Hsub & _).
  destruct (collect_loop_entries _ _ _ _ _ _ _ _ _ H)
    as (-> & new & E & Hall & Hin).
  simpl in E, E'. subst new' plan. simpl. split; [done|]. split.
  { apply sublist_length in Hsub. by rewrite length_fmap in Hsub. }
  split; [done|]. split.
  - intros p Hp. split; [|by apply Hin].
    intros ([q d] & -> & He)%list_elem_of_fmap.
    rewrite Forall_forall in Hall. destruct (Hall _ He) as (_ & Hq & Hne & _).
    simpl in *. rewrite Hq. intros [= E]. by apply Hne.
  - eapply Forall_impl; [exact Hall|]. intros e (? & ? & ? & ?). done.
Qed.

Lemma X10_plan_contents_witness :
  3 = length (iter_files_of (w_fs (start demo_fs)) books false)
  /\ length [(tagged_a, untagged); (tagged_b, untagged)] <= 3
  /\ [(tagged_a, untagged); (tagged_b, untagged)].*1
     `sublist_of` iter_files_of (w_fs (start demo_fs)) books false
  /\ (forall p, p ∈ iter_files_of (w_fs (start demo_fs)) books false ->
        p ∈ [(tagged_a, untagged); (tagged_b, untagged)].*1
        <-> propose_new_name ascii_db (name_of p) tag_pattern (lit "delete") []
            <> Ok (name_of p))
  /\ Forall (fun e =>
       e.1 ∈ iter_files_of (w_fs (start demo_fs)) books false
       /\ propose_new_name ascii_db (name_of e.1) tag_pattern (lit "delete") []
          = Ok (name_of e.2)
       /\ e.2 = parent e.1 ++ [name_of e.2])
       [(tagged_a, untagged); (tagged_b, untagged)].
Proof.
  apply (X10_plan_contents ascii_db books false tag_pattern (lit "delete") []
           (start demo_fs)).
  vm_compute. reflexivity.
Defined.

(** X11.  When the replacement compiles and the proposal for some file in
    scope is not a file name (it is empty, it is a single period or it holds
    a slash), planning ends with a [ValueError] right after the scan: no
    plan is returned, wherever the file stands in the scan.  So does a file
    whose whole name is the phrase in delete mode. *)
Theorem X11_invalid_proposal_aborts (db : unicode_db) (root : list (list N))
  (recursive : bool) (pattern : Pattern) (mode replacement : list N)
  (filter : list N -> list N) (w : world) (p : list (list N)) (r : list N) :
  compile_template (if decide (mode = lit "delete") then [] else replacement)
  = Ok filter ->
  p ∈ iter_files_of (w_fs w) root recursive ->
  propose_new_name db (name_of p) pattern mode replacement = Ok r ->
  r <> name_of p ->
  r = [] \/ r = lit "." \/ SLASH ∈ r ->
  collect_changes db root recursive pattern mode replacement w
  = (Raised ValueError, log (EScan root recursive) w).
Proof.
  intros Hc Hp Hr Hne Hbad. rewrite collect_changes_unfold.
  rewrite (collect_loop_invalid db _ _ _ _ filter p r); try done.
  unfold with_name. destruct (bool_decide (name_of p = [])); [done|].
  assert (bool_decide (r = []) || existsb (N.eqb SLASH) r
          || bool_decide (r = lit ".") = true) as ->; [|done].
  destruct Hbad as [->|[->|Hs]]; [done|done|].
  apply existsb_eqb_elem in Hs. by rewrite Hs, orb_true_r.
Qed.

Lemma X11_invalid_proposal_aborts_witness :
  collect_changes ascii_db books false tag_pattern (lit "delete") []
    (start bare_fs)
  = (Raised ValueError, log (EScan books false) (start bare_fs)).
Proof.
  apply (X11_invalid_proposal_aborts ascii_db books false tag_pattern
           (lit "delete") [] (fun _ => []) (start bare_fs)
           (books ++ [lit "(Z-Library)"]) []).
  - reflexivity.
  - vm_compute. apply elem_of_cons. by left.
  - by vm_compute.
  - discriminate.
  - by left.
Defined.

(** X12.  [iter_files] scans once and yields, each exactly once, the regular
    files in scope and nothing else, never a directory.  Without
    [--recursive] these are the regular files that are children of the
    root; with it they are among the files yielded. *)
Theorem X12_iter_files_regular_files (root : list (list N)) (recursive : bool)
  (w : world) :
  iter_files root recursive w
  = (Ret (iter_files_of (w_fs w) root recursive), log (EScan root recursive) w)
  /\ NoDup (iter_files_of (w_fs w) root recursive)
  /\ (forall p, p ∈ iter_files_of (w_fs w) root recursive
                <-> (exists c, w_fs w !! p = Some (File c))
                    /\ in_scope recursive root p = true)
  /\ (forall p, p ∈ iter_files_of (w_fs w) root false
                <-> (exists c, w_fs w !! p = Some (File c))
                    /\ exists name, p = root ++ [name])
  /\ (forall p, p ∈ iter_files_of (w_fs w) root false ->
                p ∈ iter_files_of (w_fs w) root true).
Proof.
  split; [done|]. split; [apply iter_files_of_spec|].
  split; [intros p; apply iter_files_of_elem|]. split.
  - intros p. by rewrite iter_files_of_elem, in_scope_child.
  - intros p. rewrite !iter_files_of_elem. intros [Hc Hs].
    split; [done|]. by apply in_scope_recursive.
Qed.

(** ** The execution loop, entry by entry *)

Section LoopFacts.
Implicit Types (fs : gmap (list (list N)) node) (w : world) (k : counters).

(** One round of the loop. *)
Lemma execute_cons apply src dst rest k w :
  execute apply ((src, dst) :: rest) k w
  = if (bool_decide (dst = []) || bool_decide (is_Some (w_fs w !! dst)))
       && bool_decide (dst ≠ src)
    then execute apply rest (collided k)
           (log (EPrint (MSkip (name_of dst) (name_of src))) w)
    else if apply then
      match rename_fs (w_fs w) src dst with
      | Ok fs' =>
          execute true rest (renamed_one k)
            {| w_fs := fs';
               w_log := w_log w ++ [ERename src dst;
                                    EPrint (MRename (name_of src) (name_of dst))] |}
      | Err e =>
          execute true rest (failed k)
            {| w_fs := w_fs w;
               w_log := w_log w ++ [ERename src dst;
                                    EPrint (MError (name_of src) e)] |}
      end
    else execute false rest k
           (log (EPrint (MDryRun (name_of src) (name_of dst))) w).
Proof.
  destruct ((bool_decide (dst = []) || bool_decide (is_Some (w_fs w !! dst)))
            && bool_decide (dst ≠ src)) eqn:E.
  - cbn [execute]. rewrite bind_unfold. cbn [path_exists]. rewrite E.
    by rewrite bind_unfold.
  - destruct apply; [by apply execute_attempt|].
    cbn [execute]. rewrite bind_unfold. cbn [path_exists]. rewrite E.
    by rewrite bind_unfold.
Qed.

Lemma rename_calls_app evs1 evs2 :
  rename_calls (evs1 ++ evs2) = rename_calls evs1 ++ rename_calls evs2.
Proof. apply omap_app. Qed.

Lemma printed_app evs1 evs2 : printed (evs1 ++ evs2) = printed evs1 ++ printed evs2.
Proof. apply omap_app. Qed.

(** The loop never raises, prints one line per entry, calls [rename] on
    entries of the plan only, in their order, and counts every call either
    as a rename or as an error. *)
Lemma execute_counts apply changes : forall k w,
  exists k' w' evs,
    execute apply changes k w = (Ret k', w')
    /\ w_log w' = w_log w ++ evs
    /\ length (printed evs) = length changes
    /\ rename_calls evs `sublist_of` changes
    /\ errors k' + renamed k'
       = errors k + renamed k + length (rename_calls evs)
    /\ collisions k' + length (rename_calls evs)
       <= collisions k + length changes
    /\ collisions k <= collisions k'
    /\ (apply = true ->
        collisions k' + errors k' + renamed k'
        = collisions k + errors k + renamed k + length changes)
    /\ (apply = false ->
        rename_calls evs = [] /\ w_fs w' = w_fs w
        /\ errors k' = errors k /\ renamed k' = renamed k).
Proof.
  induction changes as [|[src dst] changes IH]; intros k w.
  - exists k, w, []. rewrite app_nil_r. simpl. repeat split; try done; lia.
  - rewrite execute_cons.
    destruct ((bool_decide (dst = []) || bool_decide (is_Some (w_fs w !! dst)))
              && bool_decide (dst ≠ src)).
    + destruct (IH (collided k)
                  (log (EPrint (MSkip (name_of dst) (name_of src))) w))
        as (k' & w' & evs & -> & Hlog & Hp & Hr & Hc & Hcol & Hmono & Ha & Hd).
      exists k', w', (EPrint (MSkip (name_of dst) (name_of src)) :: evs).
      simpl in *. rewrite <- app_assoc in Hlog.
      repeat split; try done; try lia.
      * by apply sublist_cons.
      * intros H. specialize (Ha H). lia.
      * by apply Hd.
      * by apply Hd.
      * by apply Hd.
      * by apply Hd.
    + destruct apply.
      * destruct (rename_fs (w_fs w) src dst) as [fs'|e].
        -- destruct (IH (renamed_one k)
                       {| w_fs := fs';
                          w_log := w_log w ++ [ERename src dst;
                            EPrint (MRename (name_of src) (name_of dst))] |})
             as (k' & w' & evs & -> & Hlog & Hp & Hr & Hc & Hcol & Hmono & Ha & _).
           exists k', w', (ERename src dst
                           :: EPrint (MRename (name_of src) (name_of dst)) :: evs).
           simpl in *. rewrite <- app_assoc in Hlog.
           specialize (Ha eq_refl).
           repeat split; try done; try lia. by apply sublist_skip.
        -- destruct (IH (failed k)
                       {| w_fs := w_fs w;
                          w_log := w_log w ++ [ERename src dst;
                            EPrint (MError (name_of src) e)] |})
             as (k' & w' & evs & -> & Hlog & Hp & Hr & Hc & Hcol & Hmono & Ha & _).
           exists k', w', (ERename src dst
                           :: EPrint (MError (name_of src) e) :: evs).
           simpl in *. rewrite <- app_assoc in Hlog.
           specialize (Ha eq_refl).
           repeat split; try done; try lia. by apply sublist_skip.
      * destruct (IH k (log (EPrint (MDryRun (name_of src) (name_of dst))) w))
          as (k' & w' & evs & -> & Hlog & Hp & Hr & Hc & Hcol & Hmono & _ & Hd).
        exists k', w', (EPrint (MDryRun (name_of src) (name_of dst)) :: evs).
        simpl in *. rewrite <- app_assoc in Hlog.
        destruct (Hd eq_refl) as (Hn & Hfs & He & Hre).
        repeat split; try done; try lia.
        by apply sublist_cons.
Qed.

End LoopFacts.


(** ** Nothing is lost *)

Section NodesFacts.
Implicit Types (fs : gmap (list (list N)) node) (w : world) (k : counters).




End NodesFacts.



(** ** A plan without obstacles *)

Section CleanPlan.
Implicit Types (fs : gmap (list (list N)) node) (w : world) (k : counters).


End CleanPlan.



(** ** The run as a whole *)

Section RunFacts.
Context (db : unicode_db) (env : Env).
Implicit Types (fs : gmap (list (list N)) node) (w : world) (k : counters).

(** The steps of [main] before the pattern is compiled. *)
Lemma main_unfold args w :
  main db env args w
  = match env_resolve env (target args) with
    | None => (Raised OSError, w)
    | Some root =>
        if negb (bool_decide (root = [])
                 || bool_decide (w_fs w !! root = Some Dir))
        then (Exited 1, log (EPrint (MNotDir root)) w)
        else match env_resolve env (env_home env) with
             | None => (Raised OSError, w)
             | Some home =>
                 if is_dangerous_root env root home && negb (force args)
                 then (Exited 2, log (EPrint (MRefuse root)) w)
                 else plan_and_execute db root args w
             end
    end.
Proof.
  unfold main, resolve. rewrite bind_unfold.
  destruct (env_resolve env (target args)) as [root|]; cbn [lift]; [|done].
  rewrite bind_unfold. cbn [is_dir].
  destruct (negb _); [by rewrite bind_unfold|].
  rewrite bind_unfold.
  destruct (env_resolve env (env_home env)) as [home|]; cbn [lift]; [|done].
  destruct (_ && _); [by rewrite bind_unfold|done].
Qed.

(** The matching pass prints the names the pattern finds, in the order of
    the scan. *)
Lemma print_matches_run pattern files : forall any w,
  print_matches db files pattern any w
  = (Ret (any || negb (bool_decide
                         (filter (fun p => pattern_search db pattern (name_of p)
                                           = true) files = []))),
     {| w_fs := w_fs w;
        w_log := w_log w
                 ++ map (fun p => EPrint (MMatch (name_of p)))
                      (filter (fun p => pattern_search db pattern (name_of p)
                                        = true) files) |}).
Proof.
  induction files as [|p files IH]; intros any w.
  - simpl. rewrite orb_false_r, app_nil_r. by destruct w.
  - cbn [print_matches]. rewrite filter_cons.
    destruct (pattern_search db pattern (name_of p)) eqn:E.
    + rewrite decide_True by done. rewrite bind_unfold. cbn [print emit].
      rewrite IH. cbn [map]. unfold log. cbn [w_fs w_log].
      rewrite <- app_assoc. cbn [app].
      rewrite (bool_decide_eq_false_2 (_ :: _ = [])) by done.
      by rewrite orb_true_r.
    + rewrite decide_False by done. apply IH.
Qed.

(** [main] from the compilation of the pattern on: the matching pass if
    asked for, the scan, and either the exception of the planner or the
    execution of its plan. *)
Lemma plan_and_execute_unfold root args w :
  plan_and_execute db root args w
  = let pattern :=
      build_pattern db (phrase args) (ignore_case args) (loose args) in
    let w1 :=
      {| w_fs := w_fs w;
         w_log := w_log w
                  ++ (if list_matches args
                      then listing_log db (w_fs w) root (recursive args) pattern
                      else [])
                  ++ [EScan root (recursive args)] |} in
    match collect_loop db (iter_files_of (w_fs w) root (recursive args))
            pattern (mode args) (replacement args) [] 0 with
    | Ok plan => execute_and_report root args plan w1
    | Err e => (Raised e, w1)
    end.
Proof.
  cbv zeta. unfold plan_and_execute. rewrite bind_unfold.
  destruct (list_matches args).
  - rewrite bind_unfold. unfold iter_files at 1. rewrite bind_unfold.
    cbn [emit]. unfold list_files at 1. cbn [log w_fs w_log].
    rewrite bind_unfold, print_matches_run. cbn [w_fs w_log orb].
    set (hits := filter _ _).
    assert (forall w2 : world,
              (if negb (bool_decide (hits = [])) then pass else print MNoMatch) w2
              = (Ret tt,
                 {| w_fs := w_fs w2;
                    w_log := w_log w2
                             ++ (if bool_decide (hits = [])
                                 then [EPrint MNoMatch] else []) |})) as ->.
    { intros w2. destruct (bool_decide (hits = [])); cbn [negb]; [done|].
      unfold pass. cbn. rewrite app_nil_r. by destruct w2. }
    cbn [w_fs w_log]. rewrite bind_unfold, collect_changes_unfold.
    cbn [w_fs w_log]. unfold listing_log, log. cbn [w_fs w_log].
    fold hits. rewrite <- !app_assoc. cbn [app]. rewrite <- !app_assoc.
    by destruct (collect_loop _ _ _ _ _ _ _).
  - unfold pass at 1. cbn [mret M_ret]. rewrite bind_unfold, collect_changes_unfold.
    unfold log. cbn [app].
    by destruct (collect_loop _ _ _ _ _ _ _).
Qed.

End RunFacts.

(** ** The program does not read what it has printed *)

Section LogBlind.
Context (db : unicode_db) (env : Env).
Implicit Types (w : world) (k : counters).

Lemma log_blind_pure {A} (f : gmap (list (list N)) node -> outcome A) :
  log_blind (fun w => (f (w_fs w), w)).
Proof.
  intros w1 w2 Hfs. exists (f (w_fs w1)), (w_fs w1), [].
  rewrite !app_nil_r. split; [by destruct w1|].
  rewrite Hfs. by destruct w2.
Qed.

Lemma log_blind_ret {A} (a : A) : log_blind (mret a : M A).
Proof. apply (log_blind_pure (fun _ => Ret a)). Qed.

Lemma log_blind_bind {A B} (c : M A) (k : A -> M B) :
  log_blind c -> (forall a, log_blind (k a)) -> log_blind (c ≫= k).
Proof.
  intros Hc Hk w1 w2 Hfs. rewrite !bind_unfold.
  destruct (Hc w1 w2 Hfs) as (o & fs' & evs & -> & ->).
  destruct o as [a|e|n]; [|by exists (Raised e), fs', evs
                          |by exists (Exited n), fs', evs].
  destruct (Hk a {| w_fs := fs'; w_log := w_log w1 ++ evs |}
              {| w_fs := fs'; w_log := w_log w2 ++ evs |} eq_refl)
    as (o & fs'' & evs' & -> & ->).
  exists o, fs'', (evs ++ evs'). cbn [w_log]. by rewrite !app_assoc.
Qed.

Lemma log_blind_emit e : log_blind (emit e).
Proof.
  intros w1 w2 Hfs. exists (Ret tt), (w_fs w1), [e].
  unfold emit, log. by rewrite Hfs.
Qed.

Lemma log_blind_print m : log_blind (print m).
Proof. apply log_blind_emit. Qed.

Lemma log_blind_pass : log_blind pass.
Proof. apply log_blind_ret. Qed.

Lemma log_blind_lift {A} (r : result A) : log_blind (lift r).
Proof.
  destruct r as [a|e];
    [apply (log_blind_pure (fun _ => Ret a))
    |apply (log_blind_pure (fun _ => Raised e))].
Qed.

Lemma log_blind_sys_exit {A} n : log_blind (sys_exit n : M A).
Proof. apply (log_blind_pure (fun _ => Exited n)). Qed.

Lemma log_blind_path_exists p : log_blind (path_exists p).
Proof.
  intros w1 w2 Hfs. unfold path_exists. rewrite Hfs.
  eexists _, (w_fs w2), []. rewrite !app_nil_r.
  split; [destruct w1; simpl in *; by subst|by destruct w2].
Qed.

Lemma log_blind_is_dir p : log_blind (is_dir p).
Proof.
  intros w1 w2 Hfs. unfold is_dir. rewrite Hfs.
  eexists _, (w_fs w2), []. rewrite !app_nil_r.
  split; [destruct w1; simpl in *; by subst|by destruct w2].
Qed.

Lemma log_blind_iter_files root recursive : log_blind (iter_files root recursive).
Proof.
  apply log_blind_bind; [apply log_blind_emit|]. intros _.
  apply (log_blind_pure (fun fs => Ret (iter_files_of fs root recursive))).
Qed.

Lemma log_blind_rename src dst : log_blind (rename src dst).
Proof.
  apply log_blind_bind; [apply log_blind_emit|]. intros _.
  intros w1 w2 Hfs. unfold sys_rename. rewrite <- Hfs.
  destruct (rename_fs (w_fs w1) src dst) as [fs'|e].
  - exists (Ret tt), fs', []. by rewrite !app_nil_r.
  - exists (Raised e), (w_fs w1), []. rewrite !app_nil_r.
    split; [by destruct w1|]. rewrite Hfs. by destruct w2.
Qed.

Lemma log_blind_try {A} (c : M A) : log_blind c -> log_blind (try c).
Proof.
  intros Hc w1 w2 Hfs. unfold try.
  destruct (Hc w1 w2 Hfs) as (o & fs' & evs & -> & ->).
  destruct o as [a|e|n];
    [by exists (Ret (Ok a)), fs', evs
    |by exists (Ret (Err e)), fs', evs
    |by exists (Exited n), fs', evs].
Qed.

Lemma log_blind_resolve p : log_blind (resolve env p).
Proof. apply log_blind_lift. Qed.

Lemma log_blind_print_matches files pattern : forall any,
  log_blind (print_matches db files pattern any).
Proof.
  induction files as [|p files IH]; intros any; simpl; [apply log_blind_ret|].
  destruct (pattern_search db pattern (name_of p)); [|apply IH].
  apply log_blind_bind; [apply log_blind_print|]. intros _. apply IH.
Qed.

Lemma log_blind_collect_changes root recursive pattern mode replacement :
  log_blind (collect_changes db root recursive pattern mode replacement).
Proof.
  apply log_blind_bind; [apply log_blind_iter_files|]. intros files.
  apply log_blind_lift.
Qed.

Lemma log_blind_execute apply changes : forall k,
  log_blind (execute apply changes k).
Proof.
  induction changes as [|[src dst] changes IH]; intros k; simpl;
    [apply log_blind_ret|].
  apply log_blind_bind; [apply log_blind_path_exists|]. intros ex.
  destruct (ex && _).
  - apply log_blind_bind; [apply log_blind_print|]. intros _. apply IH.
  - destruct apply.
    + apply log_blind_bind; [apply log_blind_try, log_blind_rename|].
      intros [u|e]; (apply log_blind_bind; [apply log_blind_print|]);
        intros _; apply IH.
    + apply log_blind_bind; [apply log_blind_print|]. intros _. apply IH.
Qed.

Lemma log_blind_execute_and_report root args plan :
  log_blind (execute_and_report root args plan).
Proof.
  unfold execute_and_report.
  apply log_blind_bind; [apply log_blind_print|]. intros _.
  destruct (bool_decide (plan.1 = [])); [apply log_blind_print|].
  apply log_blind_bind.
  { destruct (apply args); [apply log_blind_pass|apply log_blind_print]. }
  intros _. apply log_blind_bind; [apply log_blind_execute|]. intros k.
  apply log_blind_bind; [apply log_blind_print|]. intros _.
  destruct (apply args); [apply log_blind_pass|apply log_blind_print].
Qed.

Lemma log_blind_plan_and_execute root args :
  log_blind (plan_and_execute db root args).
Proof.
  unfold plan_and_execute. apply log_blind_bind.
  - destruct (list_matches args); [|apply log_blind_pass].
    apply log_blind_bind; [apply log_blind_iter_files|]. intros files.
    apply log_blind_bind; [apply log_blind_print_matches|]. intros any.
    destruct any; [apply log_blind_pass|apply log_blind_print].
  - intros _. apply log_blind_bind; [apply log_blind_collect_changes|].
    intros plan. apply log_blind_execute_and_report.
Qed.

Lemma log_blind_main args : log_blind (main db env args).
Proof.
  unfold main. apply log_blind_bind; [apply log_blind_resolve|]. intros root.
  apply log_blind_bind; [apply log_blind_is_dir|]. intros d.
  destruct (negb d).
  { apply log_blind_bind; [apply log_blind_print|]. intros _.
    apply log_blind_sys_exit. }
  apply log_blind_bind; [apply log_blind_resolve|]. intros home.
  destruct (_ && _).
  - apply log_blind_bind; [apply log_blind_print|]. intros _.
    apply log_blind_sys_exit.
  - apply log_blind_plan_and_execute.
Qed.

End LogBlind.

(** ** The report *)

Section ReportFacts.
Context (db : unicode_db) (env : Env).
Implicit Types (w : world) (k : counters).

(** The loop prints no summary line. *)
Lemma execute_summaries apply changes : forall k w k' w' evs,
  execute apply changes k w = (Ret k', w') ->
  w_log w' = w_log w ++ evs ->
  summaries (printed evs) = [].
Proof.
  induction changes as [|[src dst] changes IH]; intros k w k' w' evs.
  - simpl. intros [= _ <-] Hlog.
    rewrite <- (app_nil_r (w_log w)) in Hlog at 1.
    apply app_inv_head in Hlog. by subst evs.
  - rewrite execute_cons. intros Hex Hlog.
    assert (forall k1 w1 es,
              w_log w1 = w_log w ++ es -> summaries (printed es) = [] ->
              execute apply changes k1 w1 = (Ret k', w') ->
              summaries (printed evs) = []) as Hstep.
    { intros k1 w1 es Hw1 Hes Hex1.
      destruct (execute_counts apply changes k1 w1)
        as (k2 & w2 & evs2 & Hex2 & Hlog2 & _).
      rewrite Hex1 in Hex2. injection Hex2 as <- <-.
      rewrite Hlog, Hw1, <- app_assoc in Hlog2.
      apply app_inv_head in Hlog2. subst evs.
      rewrite printed_app. unfold summaries. rewrite omap_app.
      fold (summaries (printed es)). rewrite Hes. cbn [app].
      apply (IH k1 w1 k' w' evs2 Hex1). by rewrite Hw1, <- app_assoc, <- Hlog. }
    destruct ((bool_decide (dst = []) || bool_decide (is_Some (w_fs w !! dst)))
              && bool_decide (dst ≠ src)).
    + by apply (Hstep _ _ [EPrint (MSkip (name_of dst) (name_of src))]) in Hex.
    + destruct apply.
      * destruct (rename_fs (w_fs w) src dst) as [fs'|e].
        -- by apply (Hstep _ _ [ERename src dst;
                                 EPrint (MRename (name_of src) (name_of dst))]) in Hex.
        -- by apply (Hstep _ _ [ERename src dst;
                                 EPrint (MError (name_of src) e)]) in Hex.
      * by apply (Hstep _ _ [EPrint (MDryRun (name_of src) (name_of dst))]) in Hex.
Qed.

(** The report of a plan: it always returns, calls [rename] on entries of
    the plan only, and its summary line adds up. *)
Lemma execute_and_report_run root args plan n w :
  exists w' evs,
    execute_and_report root args (plan, n) w = (Ret tt, w')
    /\ w_log w' = w_log w ++ evs
    /\ rename_calls evs `sublist_of` plan
    /\ (apply args = false -> rename_calls evs = [] /\ w_fs w' = w_fs w)
    /\ (forall s, s ∈ summaries (printed evs) ->
          exists c co er,
            s = (n, length plan, c, co, er)
            /\ length plan = c + co + er /\ 0 < length plan
            /\ (apply args = false -> er = 0)).
Proof.
  unfold execute_and_report. cbn [fst snd]. rewrite bind_unfold.
  cbn [print emit]. destruct (bool_decide (plan = [])) eqn:Hnil.
  - exists (log (EPrint MNoChanges) (log (EPrint (MScanned n root)) w)),
      [EPrint (MScanned n root); EPrint MNoChanges].
    split; [done|]. split; [cbn; by rewrite <- app_assoc|].
    split; [apply sublist_nil_l|]. split; [done|].
    intros s Hs. by apply elem_of_nil in Hs.
  - apply bool_decide_eq_false in Hnil.
    assert (0 < length plan) as Hlen by (destruct plan; [done|simpl; lia]).
    rewrite bind_unfold.
    set (banner := if apply args then [] else [EPrint MDryRunBanner]).
    set (footer := if apply args then [] else [EPrint MDryRunFooter]).
    set (w0 := {| w_fs := w_fs w;
                  w_log := w_log w ++ EPrint (MScanned n root) :: banner |}).
    assert ((if apply args then pass else print MDryRunBanner)
              (log (EPrint (MScanned n root)) w) = (Ret tt, w0)) as ->.
    { unfold w0, banner. destruct (apply args); [done|].
      unfold print, emit, log. cbn [w_fs w_log]. by rewrite <- app_assoc. }
    rewrite bind_unfold.
    destruct (execute_counts (apply args) plan no_counts w0)
      as (k' & w' & evs & Hex & Hlog & Hp & Hr & Hc & Hcol & Hmono & Ha & Hd).
    rewrite Hex. rewrite bind_unfold. cbn [print emit].
    pose proof (execute_summaries _ _ _ _ _ _ _ Hex Hlog) as Hsum.
    set (line := MSummary n (length plan)
                   (if apply args then renamed k' else length plan - collisions k')
                   (collisions k') (errors k')).
    exists {| w_fs := w_fs w'; w_log := w_log w' ++ EPrint line :: footer |},
      (EPrint (MScanned n root) :: banner ++ evs ++ EPrint line :: footer).
    split; [|split; [|split; [|split]]].
    + unfold footer. destruct (apply args); [done|].
      unfold print, emit, log. cbn [w_fs w_log]. by rewrite <- app_assoc.
    + cbn [w_log]. rewrite Hlog. unfold w0. cbn [w_log].
      rewrite <- !app_assoc. done.
    + assert (rename_calls
                (EPrint (MScanned n root) :: banner ++ evs ++ EPrint line :: footer)
              = rename_calls evs) as ->; [|done].
      change (EPrint (MScanned n root) :: banner ++ evs ++ EPrint line :: footer)
        with ([EPrint (MScanned n root)] ++ banner ++ evs
              ++ EPrint line :: footer).
      rewrite !rename_calls_app.
      assert (rename_calls banner = []) as -> by (unfold banner; by destruct (apply args)).
      assert (rename_calls (EPrint line :: footer) = []) as ->
        by (unfold footer; by destruct (apply args)).
      by rewrite app_nil_r.
    + intros Hdry. destruct (Hd Hdry) as (Hn & Hfs & _). split.
      * change (EPrint (MScanned n root) :: banner ++ evs ++ EPrint line :: footer)
          with ([EPrint (MScanned n root)] ++ banner ++ evs
                ++ EPrint line :: footer).
        rewrite !rename_calls_app, Hn.
        unfold banner, footer. by rewrite Hdry.
      * cbn [w_fs]. by rewrite Hfs.
    + intros s Hs.
      assert (summaries
                (printed
                   (EPrint (MScanned n root) :: banner ++ evs ++ EPrint line :: footer))
              = [(n, length plan,
                  if apply args then renamed k' else length plan - collisions k',
                  collisions k', errors k')]) as E.
      { change (EPrint (MScanned n root) :: banner ++ evs ++ EPrint line :: footer)
          with ([EPrint (MScanned n root)] ++ banner ++ evs
                ++ EPrint line :: footer).
        rewrite !printed_app. unfold summaries. rewrite !omap_app.
        fold (summaries (printed evs)). rewrite Hsum.
        unfold banner, footer, line. by destruct (apply args). }
      rewrite E in Hs. apply list_elem_of_singleton in Hs. subst s.
      eexists _, _, _. split; [done|]. simpl in Hc, Hcol.
      destruct (apply args) eqn:Happ.
      * specialize (Ha eq_refl). simpl in Ha. repeat split; try lia; done.
      * destruct (Hd eq_refl) as (Hn & _ & He & Hre). simpl in He, Hre.
        rewrite Hn in Hcol. simpl in Hcol. repeat split; try lia.
Qed.

End ReportFacts.

(** ** From the command line to the last line *)

Section MainFacts.
Context (db : unicode_db) (env : Env).
Implicit Types (w : world) (k : counters).

Lemma listing_log_quiet fs root recursive pattern :
  rename_calls (listing_log db fs root recursive pattern) = []
  /\ summaries (printed (listing_log db fs root recursive pattern)) = [].
Proof.
  unfold listing_log. cbv zeta. set (hits := filter _ _). clearbody hits.
  change (EScan root recursive
            :: map (fun p => EPrint (MMatch (name_of p))) hits
            ++ (if bool_decide (hits = []) then [EPrint MNoMatch] else []))
    with ([EScan root recursive]
            ++ map (fun p => EPrint (MMatch (name_of p))) hits
            ++ (if bool_decide (hits = []) then [EPrint MNoMatch] else [])).
  rewrite !rename_calls_app, !printed_app. unfold summaries.
  rewrite !omap_app.
  assert (rename_calls (map (fun p => EPrint (MMatch (name_of p))) hits) = []
          /\ omap (fun m => match m with
                            | MSummary ch ma c co er => Some (ch, ma, c, co, er)
                            | _ => None
                            end)
               (printed (map (fun p => EPrint (MMatch (name_of p))) hits)) = [])
    as [-> ->].
  { induction hits as [|p hits [IH1 IH2]]; [done|]. simpl. by split. }
  by destruct (bool_decide (hits = [])).
Qed.

(** A run either ends before the loop, with the file system as it was, or
    executes the plan made from the file system it started on. *)
Lemma main_run args w :
  exists evs,
    w_log (main db env args w).2 = w_log w ++ evs
    /\ ((w_fs (main db env args w).2 = w_fs w
         /\ rename_calls evs = [] /\ summaries (printed evs) = []
         /\ ((main db env args w).1 = Exited 1
             \/ (main db env args w).1 = Exited 2
             \/ exists e, (main db env args w).1 = Raised e))
        \/ exists root plan n,
             env_resolve env (target args) = Some root
             /\ collect_loop db (iter_files_of (w_fs w) root (recursive args))
                  (build_pattern db (phrase args) (ignore_case args) (loose args))
                  (mode args) (replacement args) [] 0 = Ok (plan, n)
             /\ (main db env args w).1 = Ret tt
             /\ rename_calls evs `sublist_of` plan
             /\ (apply args = false ->
                 rename_calls evs = [] /\ w_fs (main db env args w).2 = w_fs w)
             /\ (forall s, s ∈ summaries (printed evs) ->
                   exists c co er,
                     s = (n, length plan, c, co, er)
                     /\ length plan = c + co + er /\ 0 < length plan
                     /\ (apply args = false -> er = 0))).
Proof.
  rewrite main_unfold.
  destruct (env_resolve env (target args)) as [root|] eqn:Hroot;
    [|exists []; rewrite app_nil_r; split; [done|left]; repeat split; eauto].
  destruct (negb _).
  { exists [EPrint (MNotDir root)]. split; [done|left]. repeat split; eauto. }
  destruct (env_resolve env (env_home env)) as [home|];
    [|exists []; rewrite app_nil_r; split; [done|left]; repeat split; eauto].
  destruct (_ && _).
  { exists [EPrint (MRefuse root)]. split; [done|left]. repeat split; eauto. }
  rewrite plan_and_execute_unfold. cbv zeta.
  set (pattern := build_pattern db (phrase args) (ignore_case args) (loose args)).
  set (pre := (if list_matches args
               then listing_log db (w_fs w) root (recursive args) pattern
               else []) ++ [EScan root (recursive args)]).
  assert (rename_calls pre = [] /\ summaries (printed pre) = []) as [Hpre1 Hpre2].
  { unfold pre. rewrite rename_calls_app, printed_app. unfold summaries.
    rewrite omap_app. destruct (list_matches args); [|done].
    destruct (listing_log_quiet (w_fs w) root (recursive args) pattern)
      as [-> H]. unfold summaries in H. by rewrite H. }
  destruct (collect_loop _ _ _ _ _ _ _) as [[plan n]|e] eqn:Hc.
  - destruct (execute_and_report_run root args plan n
                {| w_fs := w_fs w; w_log := w_log w ++ pre |})
      as (w' & evs & Hex & Hlog & Hsub & Hdry & Hsum).
    rewrite Hex. cbn [fst snd w_log] in *.
    exists (pre ++ evs). split; [by rewrite Hlog, app_assoc|right].
    exists root, plan, n. rewrite rename_calls_app, Hpre1. cbn [app].
    repeat split; try done.
    + by apply Hdry.
    + by apply Hdry.
    + intros s. rewrite printed_app. unfold summaries. rewrite omap_app.
      fold (summaries (printed pre)). rewrite Hpre2. apply Hsum.
  - exists pre. split; [done|left]. repeat split; eauto.
Qed.

End MainFacts.

(** X16.  Whatever the arguments and the file system, every [rename] a run
    calls concerns a regular file that was in scope of the resolved target
    when the run started, each file at most once, and gives it the name the
    planner proposed for it, another name in the same directory.  Without
    [--apply] no call is made. *)
Theorem X16_main_renames_planned_files_only (db : unicode_db) (env : Env)
  (args : Args) (w : world) :
  exists evs,
    w_log (main db env args w).2 = w_log w ++ evs
    /\ NoDup (rename_calls evs).*1
    /\ (apply args = false -> rename_calls evs = [])
    /\ Forall (fun e =>
         (exists c, w_fs w !! e.1 = Some (File c))
         /\ (exists root,
               env_resolve env (target args) = Some root
               /\ in_scope (recursive args) root e.1 = true)
         /\ parent e.2 = parent e.1
         /\ name_of e.2 <> name_of e.1
         /\ propose_new_name db (name_of e.1)
              (build_pattern db (phrase args) (ignore_case args) (loose args))
              (mode args) (replacement args) = Ok (name_of e.2))
         (rename_calls evs).
Proof.
  destruct (main_run db env args w) as (evs & Hlog & H). exists evs.
  split; [done|].
  destruct H as [(_ & -> & _)|(root & plan & n & Hroot & Hc & _ & Hsub & Hdry & _)].
  { split; [apply NoDup_nil_2|]. split; [done|constructor]. }
  destruct (collect_loop_plan _ _ _ _ _ _ _ _ _ Hc) as (new & E & Hfiles & Hpar).
  destruct (collect_loop_entries _ _ _ _ _ _ _ _ _ Hc) as (_ & new' & E' & Hent & _).
  simpl in E, E'. subst new new'.
  destruct (iter_files_of_spec (w_fs w) root (recursive args)) as [Hnd _].
  split; [|split; [by intros Ha; apply Hdry|]].
  - eapply sublist_NoDup; [|by apply fmap_sublist].
    by apply (sublist_NoDup _ _ Hnd).
  - apply Forall_forall. intros e He.
    assert (e ∈ plan) as He' by (eapply elem_of_sublist; [exact He|exact Hsub]).
    clear He. rename He' into He.
    rewrite Forall_forall in Hpar, Hent.
    destruct (Hpar e He) as [_ Hp]. destruct (Hent e He) as (Hin & Hprop & Hne & _).
    apply iter_files_of_elem in Hin as [Hfile Hscope].
    repeat split; try done. by exists root.
Qed.


(** X18.  The numbers of every summary a run prints add up: the matched
    filenames are the changed ones plus the collisions plus the errors,
    there is at least one of them and there are at most as many as checked
    files; without [--apply] the errors are zero. *)
Theorem X18_summary_adds_up (db : unicode_db) (env : Env) (args : Args)
  (w : world) :
  exists evs,
    w_log (main db env args w).2 = w_log w ++ evs
    /\ forall s, s ∈ summaries (printed evs) ->
         exists checked matched changed skipped failures,
           s = (checked, matched, changed, skipped, failures)
           /\ matched = changed + skipped + failures
           /\ 0 < matched <= checked
           /\ (apply args = false -> failures = 0).
Proof.
  destruct (main_run db env args w) as (evs & Hlog & H). exists evs.
  split; [done|].
  destruct H as [(_ & _ & -> & _)|(root & plan & n & _ & Hc & _ & _ & _ & Hsum)].
  { intros s Hs. by apply elem_of_nil in Hs. }
  intros s Hs. destruct (Hsum s Hs) as (c & co & er & -> & Hadd & Hpos & Hdry).
  exists n, (length plan), c, co, er. repeat split; try done.
  destruct (collect_loop_plan _ _ _ _ _ _ _ _ _ Hc) as (new & E & Hfiles & _).
  destruct (collect_loop_entries _ _ _ _ _ _ _ _ _ Hc) as (-> & _).
  simpl in E. subst new. apply sublist_length in Hfiles.
  rewrite length_fmap in Hfiles. simpl. lia.
Qed.

(** X19.  [--list-matches] is informational: with it the run ends the same
    way on the same file system and logs the same events as without it,
    after the events of the matching pass, which are a scan, one line per
    file in scope whose name the pattern finds, in scan order, and a closing
    line when there is none. *)
Theorem X19_list_matches_is_informational (db : unicode_db)
  (root : list (list N)) (args : Args) (w : world) :
  exists o fs' evs,
    plan_and_execute db root (set_list_matches false args) w
    = (o, {| w_fs := fs'; w_log := w_log w ++ evs |})
    /\ plan_and_execute db root (set_list_matches true args) w
       = (o, {| w_fs := fs';
                w_log := w_log w
                  ++ listing_log db (w_fs w) root (recursive args)
                       (build_pattern db (phrase args) (ignore_case args)
                          (loose args))
                  ++ evs |}).
Proof.
  rewrite !plan_and_execute_unfold. cbv zeta.
  cbn [set_list_matches list_matches phrase ignore_case loose recursive mode
       replacement].
  set (pattern := build_pattern db (phrase args) (ignore_case args) (loose args)).
  destruct (collect_loop _ _ _ _ _ _ _) as [plan|e].
  - destruct (log_blind_execute_and_report root args plan
                {| w_fs := w_fs w;
                   w_log := w_log w ++ [] ++ [EScan root (recursive args)] |}
                {| w_fs := w_fs w;
                   w_log := w_log w
                     ++ listing_log db (w_fs w) root (recursive args) pattern
                     ++ [EScan root (recursive args)] |} eq_refl)
      as (o & fs' & evs & H1 & H2).
    exists o, fs', (EScan root (recursive args) :: evs).
    split.
    + change (execute_and_report root (set_list_matches false args) plan)
        with (execute_and_report root args plan).
      rewrite H1. cbn [w_log app]. by rewrite <- app_assoc.
    + change (execute_and_report root (set_list_matches true args) plan)
        with (execute_and_report root args plan).
      rewrite H2. cbn [w_log]. by rewrite <- !app_assoc.
  - exists (Raised e), (w_fs w), [EScan root (recursive args)]. done.
Qed.

(** ** Prompting *)

Section PromptFacts.
Context (expanduser : list N -> option (list N))
        (is_valid_dir : list N -> bool)
        (lower : list N -> list N).
Implicit Types (c : console) (args : Namespace) (lines : list (list N)).

Lemma strip_idem (s : list N) : strip (strip s) = strip s.
Proof.
  unfold strip at 1. rewrite (lstrip_id (strip s)) by apply strip_head.
  apply rstrip_id, strip_last.
Qed.

(** The directory loop ends on the first answer that names a directory,
    after one complaint per answer before it. *)
Lemma ask_target_inr lines : forall out p c',
  ask_target expanduser is_valid_dir lines out = (inr p, c') ->
  is_valid_dir p = true
  /\ exists skipped l said,
       lines = skipped ++ l :: stdin c'
       /\ expanduser (strip l) = Some p
       /\ Forall (fun x => exists q, expanduser (strip x) = Some q
                                     /\ is_valid_dir q = false) skipped
       /\ stdout c' = out ++ said.
Proof.
  induction lines as [|l lines IH]; intros out p c'; simpl; [done|].
  destruct (expanduser (strip l)) as [q|] eqn:Eq; [|done].
  destruct (is_valid_dir q) eqn:Ev.
  - intros [= <- <-]. split; [done|]. exists [], l, [PAskDir]. by repeat split.
  - intros H. destruct (IH _ _ _ H) as (Hv & skipped & l' & said & -> & He & Hs & Hout).
    split; [done|]. exists (l :: skipped), l', ([PAskDir; PNotValidDir q] ++ said).
    repeat split; try done.
    + constructor; [by exists q|done].
    + by rewrite Hout, <- app_assoc.
Qed.

(** The phrase loop takes the first answer that is not blank, stripped. *)
Lemma ask_phrase_run skipped l rest out :
  Forall blank skipped -> strip l <> [] ->
  ask_phrase (skipped ++ l :: rest) out
  = (inr (strip l),
     {| stdin := rest;
        stdout := out ++ flat_map (fun _ => [PAskPhrase; PPhraseEmpty]) skipped
                      ++ [PAskPhrase] |}).
Proof.
  intros Hs Hl. revert out.
  induction Hs as [|x skipped Hx _ IH]; intros out; simpl.
  - by rewrite bool_decide_eq_true_2.
  - unfold blank in Hx. rewrite Hx. rewrite bool_decide_eq_false_2 by (by intros []).
    rewrite IH. by rewrite <- app_assoc.
Qed.

Lemma ask_phrase_eof lines out :
  Forall blank lines ->
  ask_phrase lines out
  = (inl EOFError,
     {| stdin := [];
        stdout := out ++ flat_map (fun _ => [PAskPhrase; PPhraseEmpty]) lines
                      ++ [PAskPhrase] |}).
Proof.
  intros Hs. revert out.
  induction Hs as [|x lines Hx _ IH]; intros out; simpl; [done|].
  unfold blank in Hx. rewrite Hx. rewrite bool_decide_eq_false_2 by (by intros []).
  rewrite IH. by rewrite <- app_assoc.
Qed.

Lemma ask_phrase_inr lines : forall out s c',
  ask_phrase lines out = (inr s, c') ->
  s <> [] /\ strip s = s
  /\ exists used said, lines = used ++ stdin c' /\ stdout c' = out ++ said.
Proof.
  induction lines as [|l lines IH]; intros out s c'; simpl; [done|].
  destruct (bool_decide (strip l ≠ [])) eqn:E.
  - intros [= <- <-]. apply bool_decide_eq_true in E.
    split; [done|]. split; [apply strip_idem|].
    by exists [l], [PAskPhrase].
  - intros H. destruct (IH _ _ _ H) as (Hs & Hst & used & said & -> & Hout).
    split; [done|]. split; [done|].
    exists (l :: used), ([PAskPhrase; PPhraseEmpty] ++ said).
    split; [done|]. by rewrite Hout, <- app_assoc.
Qed.

Lemma ask_mode_again_inr lines : forall m0 out m c',
  ask_mode_again lower m0 lines out = (inr m, c') ->
  is_mode m = true
  /\ exists used said, lines = used ++ stdin c' /\ stdout c' = out ++ said.
Proof.
  induction lines as [|l lines IH]; intros m0 out m c'; simpl.
  - destruct (is_mode m0) eqn:E; [|done]. intros [= <- <-].
    split; [done|]. exists [], []. simpl. by rewrite app_nil_r.
  - destruct (is_mode m0) eqn:E.
    + intros [= <- <-]. split; [done|]. exists [], []. simpl. by rewrite app_nil_r.
    + intros H. destruct (IH _ _ _ _ H) as (Hm & used & said & -> & Hout).
      split; [done|]. exists (l :: used), ([PAskModeAgain] ++ said).
      split; [done|]. by rewrite Hout, <- app_assoc.
Qed.

Lemma input_inr q c l c' :
  input q c = (inr l, c') ->
  stdin c = l :: stdin c' /\ stdout c' = stdout c ++ [q].
Proof.
  unfold input. destruct (stdin c) as [|x rest]; [done|].
  by intros [= <- <-].
Qed.

Lemma ask_mode_inr c m c' :
  ask_mode lower c = (inr m, c') ->
  is_mode m = true
  /\ exists used said, stdin c = used ++ stdin c' /\ stdout c' = stdout c ++ said.
Proof.
  unfold ask_mode, P_bind.
  destruct (input PAskMode c) as [[e|l] c1] eqn:Ei; [done|].
  apply input_inr in Ei as [Hin Hout].
  intros H. apply ask_mode_again_inr in H as (Hm & used & said & Hu & Hs).
  split; [done|]. exists (l :: used), ([PAskMode] ++ said).
  rewrite Hin, Hu, Hs, Hout. by rewrite <- app_assoc.
Qed.

(** With everything given, nothing is asked. *)
Lemma prompt_complete args c :
  complete args = true ->
  prompt_if_missing expanduser is_valid_dir lower args c = (inr args, c).
Proof.
  unfold complete. rewrite !andb_true_iff, negb_true_iff.
  intros [[[Ht Hp] Hm] Hr]. unfold prompt_if_missing, P_bind.
  rewrite Ht. cbn [P_ret]. rewrite Hp. cbn [P_ret]. rewrite Hm. cbn [P_ret].
  by rewrite Hr.
Qed.

(** With something missing and no input left, the first prompt ends the
    program with [EOFError]. *)
Lemma prompt_eof args c :
  complete args = false -> stdin c = [] ->
  (prompt_if_missing expanduser is_valid_dir lower args c).1 = inl EOFError.
Proof.
  unfold complete. intros Hc Hin. unfold prompt_if_missing, P_bind.
  destruct (truthy (ns_target args)) eqn:Ht; cbn [P_ret];
    [|by rewrite Hin].
  destruct (truthy (ns_phrase args)) eqn:Hp; cbn [P_ret];
    [|by rewrite Hin].
  destruct (truthy (ns_mode args)) eqn:Hm; cbn [P_ret].
  - cbn [andb] in Hc. apply negb_false_iff in Hc. rewrite Hc.
    unfold input. by rewrite Hin.
  - unfold ask_mode, P_bind, input. by rewrite Hin.
Qed.

End PromptFacts.

(** X20.  When [prompt_if_missing] returns, the namespace has a phrase that
    is not empty and a mode; an option that was given is unchanged and no
    flag is touched.  A directory that was asked for passed the directory
    test, a phrase that was asked for has no whitespace at its ends, a mode
    that was asked for is delete or replace, and the replacement changes
    only in replace mode when it was empty.  The dialogue reads the input
    from its start and only adds to the output. *)
Theorem X20_prompt_establishes_inputs
  (expanduser : list N -> option (list N)) (is_valid_dir : list N -> bool)
  (lower : list N -> list N) (args args' : Namespace) (c c' : console) :
  prompt_if_missing expanduser is_valid_dir lower args c = (inr args', c') ->
  (if truthy (ns_target args) then ns_target args' = ns_target args
   else exists p, ns_target args' = Some p /\ is_valid_dir p = true)
  /\ truthy (ns_phrase args') = true
  /\ (if truthy (ns_phrase args) then ns_phrase args' = ns_phrase args
      else exists s, ns_phrase args' = Some s /\ strip s = s)
  /\ truthy (ns_mode args') = true
  /\ (if truthy (ns_mode args) then ns_mode args' = ns_mode args
      else exists m, ns_mode args' = Some m /\ is_mode m = true)
  /\ (ns_replacement args' = ns_replacement args
      \/ ns_mode args' = Some (lit "replace") /\ ns_replacement args = [])
  /\ (ns_ignore_case args', ns_recursive args', ns_apply args', ns_force args',
      ns_loose args', ns_list_matches args')
     = (ns_ignore_case args, ns_recursive args, ns_apply args, ns_force args,
        ns_loose args, ns_list_matches args)
  /\ exists used said, stdin c = used ++ stdin c' /\ stdout c' = stdout c ++ said.
Proof.
  unfold prompt_if_missing. unfold P_bind at 1.
  (* the directory *)
  set (step1 := if truthy (ns_target args) then P_ret args else _).
  destruct (step1 c) as [[e|a1] c1] eqn:E1; [done|].
  assert ((if truthy (ns_target args) then ns_target a1 = ns_target args
           else exists p, ns_target a1 = Some p /\ is_valid_dir p = true)
          /\ ns_phrase a1 = ns_phrase args /\ ns_mode a1 = ns_mode args
          /\ ns_replacement a1 = ns_replacement args
          /\ (ns_ignore_case a1, ns_recursive a1, ns_apply a1, ns_force a1,
              ns_loose a1, ns_list_matches a1)
             = (ns_ignore_case args, ns_recursive args, ns_apply args,
                ns_force args, ns_loose args, ns_list_matches args)
          /\ exists used said, stdin c = used ++ stdin c1
                               /\ stdout c1 = stdout c ++ said)
    as (Ht & Hp1 & Hm1 & Hr1 & Hf1 & used1 & said1 & Hu1 & Hs1).
  { unfold step1 in E1. destruct (truthy (ns_target args)).
    - injection E1 as <- <-. repeat split; try done.
      exists [], []. simpl. by rewrite app_nil_r.
    - unfold P_bind in E1.
      destruct (ask_target _ _ _ _) as [[e|p] c0] eqn:Ea; [done|].
      injection E1 as <- <-.
      apply ask_target_inr in Ea as (Hv & skipped & l & said & Hl & _ & _ & Hout).
      repeat split; try done; [by exists p|].
      exists (skipped ++ [l]), said. by rewrite <- app_assoc. }
  clearbody step1. clear E1 step1. unfold P_bind at 1.
  (* the phrase *)
  set (step2 := if truthy (ns_phrase a1) then P_ret a1 else _).
  destruct (step2 c1) as [[e|a2] c2] eqn:E2; [done|].
  assert (ns_target a2 = ns_target a1
          /\ truthy (ns_phrase a2) = true
          /\ (if truthy (ns_phrase a1) then ns_phrase a2 = ns_phrase a1
              else exists s, ns_phrase a2 = Some s /\ strip s = s)
          /\ ns_mode a2 = ns_mode a1
          /\ ns_replacement a2 = ns_replacement a1
          /\ (ns_ignore_case a2, ns_recursive a2, ns_apply a2, ns_force a2,
              ns_loose a2, ns_list_matches a2)
             = (ns_ignore_case a1, ns_recursive a1, ns_apply a1,
                ns_force a1, ns_loose a1, ns_list_matches a1)
          /\ exists used said, stdin c1 = used ++ stdin c2
                               /\ stdout c2 = stdout c1 ++ said)
    as (Ht2 & Hp2 & Hp2' & Hm2 & Hr2 & Hf2 & used2 & said2 & Hu2 & Hs2).
  { unfold step2 in E2. destruct (truthy (ns_phrase a1)) eqn:Etp.
    - injection E2 as <- <-. repeat split; try done.
      exists [], []. simpl. by rewrite app_nil_r.
    - unfold P_bind in E2.
      destruct (ask_phrase _ _) as [[e|s] c0] eqn:Ea; [done|].
      injection E2 as <- <-.
      apply ask_phrase_inr in Ea as (Hne & Hst & used & said & Hl & Hout).
      repeat split; try done.
      + simpl. by destruct s.
      + by exists s.
      + by exists used, said. }
  clearbody step2. clear E2 step2. unfold P_bind at 1.
  (* the mode *)
  set (step3 := if truthy (ns_mode a2) then P_ret a2 else _).
  destruct (step3 c2) as [[e|a3] c3] eqn:E3; [done|].
  assert (ns_target a3 = ns_target a2 /\ ns_phrase a3 = ns_phrase a2
          /\ truthy (ns_mode a3) = true
          /\ (if truthy (ns_mode a2) then ns_mode a3 = ns_mode a2
              else exists m, ns_mode a3 = Some m /\ is_mode m = true)
          /\ ns_replacement a3 = ns_replacement a2
          /\ (ns_ignore_case a3, ns_recursive a3, ns_apply a3, ns_force a3,
              ns_loose a3, ns_list_matches a3)
             = (ns_ignore_case a2, ns_recursive a2, ns_apply a2,
                ns_force a2, ns_loose a2, ns_list_matches a2)
          /\ exists used said, stdin c2 = used ++ stdin c3
                               /\ stdout c3 = stdout c2 ++ said)
    as (Ht3 & Hp3 & Hm3 & Hm3' & Hr3 & Hf3 & used3 & said3 & Hu3 & Hs3).
  { unfold step3 in E3. destruct (truthy (ns_mode a2)) eqn:Etm.
    - injection E3 as <- <-. repeat split; try done.
      exists [], []. simpl. by rewrite app_nil_r.
    - unfold P_bind in E3.
      destruct (ask_mode _ _) as [[e|m] c0] eqn:Ea; [done|].
      injection E3 as <- <-.
      apply ask_mode_inr in Ea as (Hmode & used & said & Hl & Hout).
      repeat split; try done.
      + simpl. unfold is_mode in Hmode.
        apply orb_true_iff in Hmode as [Hmode|Hmode];
          apply bool_decide_eq_true in Hmode; by subst m.
      + by exists m.
      + by exists used, said. }
  clearbody step3. clear E3 step3.
  (* the replacement *)
  intros E4.
  assert (ns_target args' = ns_target a3 /\ ns_phrase args' = ns_phrase a3
          /\ ns_mode args' = ns_mode a3
          /\ (ns_replacement args' = ns_replacement a3
              \/ ns_mode a3 = Some (lit "replace") /\ ns_replacement a3 = [])
          /\ (ns_ignore_case args', ns_recursive args', ns_apply args',
              ns_force args', ns_loose args', ns_list_matches args')
             = (ns_ignore_case a3, ns_recursive a3, ns_apply a3,
                ns_force a3, ns_loose a3, ns_list_matches a3)
          /\ exists used said, stdin c3 = used ++ stdin c'
                               /\ stdout c' = stdout c3 ++ said)
    as (Ht4 & Hp4 & Hm4 & Hr4 & Hf4 & used4 & said4 & Hu4 & Hs4).
  { destruct (bool_decide (ns_mode a3 = Some (lit "replace"))
              && bool_decide (ns_replacement a3 = [])) eqn:Eb.
    - unfold P_bind in E4.
      destruct (input PAskReplacement c3) as [[e|r] c0] eqn:Ei; [done|].
      injection E4 as <- <-. apply input_inr in Ei as [Hin Hout].
      apply andb_true_iff in Eb as [Eb1%bool_decide_eq_true Eb2%bool_decide_eq_true].
      repeat split; try done; [by right|].
      by exists [r], [PAskReplacement].
    - injection E4 as <- <-. repeat split; try done; [by left|].
      exists [], []. simpl. by rewrite app_nil_r. }
  clear E4.
  split; [by rewrite Ht4, Ht3, Ht2|].
  split; [by rewrite Hp4, Hp3|].
  split; [rewrite Hp4, Hp3, <- Hp1; exact Hp2'|].
  split; [by rewrite Hm4|].
  split; [rewrite Hm4, <- Hm1, <- Hm2; exact Hm3'|].
  split; [rewrite Hm4, <- Hr1, <- Hr2, <- Hr3; exact Hr4|].
  split; [congruence|].
  exists (used1 ++ used2 ++ used3 ++ used4), (said1 ++ said2 ++ said3 ++ said4).
  rewrite Hu1, Hu2, Hu3, Hu4, Hs4, Hs3, Hs2, Hs1.
  by rewrite <- !app_assoc.
Qed.

Lemma X20_prompt_establishes_inputs_witness :
  (if truthy (ns_target no_args)
   then ns_target demo_namespace = ns_target no_args
   else exists p, ns_target demo_namespace = Some p
                  /\ demo_is_valid_dir p = true)
  /\ truthy (ns_phrase demo_namespace) = true
  /\ (if truthy (ns_phrase no_args)
      then ns_phrase demo_namespace = ns_phrase no_args
      else exists s, ns_phrase demo_namespace = Some s /\ strip s = s)
  /\ truthy (ns_mode demo_namespace) = true
  /\ (if truthy (ns_mode no_args) then ns_mode demo_namespace = ns_mode no_args
      else exists m, ns_mode demo_namespace = Some m /\ is_mode m = true)
  /\ (ns_replacement demo_namespace = ns_replacement no_args
      \/ ns_mode demo_namespace = Some (lit "replace")
         /\ ns_replacement no_args = [])
  /\ (ns_ignore_case demo_namespace, ns_recursive demo_namespace,
      ns_apply demo_namespace, ns_force demo_namespace,
      ns_loose demo_namespace, ns_list_matches demo_namespace)
     = (ns_ignore_case no_args, ns_recursive no_args, ns_apply no_args,
        ns_force no_args, ns_loose no_args, ns_list_matches no_args)
  /\ exists used said,
       stdin demo_console
       = used ++ stdin {| stdin := [];
                          stdout := [PAskDir; PNotValidDir (lit "nowhere");
                                     PAskDir; PAskPhrase; PPhraseEmpty;
                                     PAskPhrase; PAskMode; PAskReplacement] |}
       /\ stdout {| stdin := [];
                    stdout := [PAskDir; PNotValidDir (lit "nowhere");
                               PAskDir; PAskPhrase; PPhraseEmpty;
                               PAskPhrase; PAskMode; PAskReplacement] |}
          = stdout demo_console ++ said.
Proof.
  apply (X20_prompt_establishes_inputs demo_expanduser demo_is_valid_dir
           demo_lower no_args demo_namespace demo_console).
  vm_compute. reflexivity.
Defined.

(** X21.  With every input given on the command line [prompt_if_missing]
    returns the namespace as it is, reads nothing and prints nothing.  With
    an input missing and no line to read it ends with [EOFError]. *)
Theorem X21_prompt_asks_only_what_is_missing
  (expanduser : list N -> option (list N)) (is_valid_dir : list N -> bool)
  (lower : list N -> list N) (args : Namespace) (c : console) :
  if complete args
  then prompt_if_missing expanduser is_valid_dir lower args c = (inr args, c)
  else stdin c = [] ->
       (prompt_if_missing expanduser is_valid_dir lower args c).1
       = inl EOFError.
Proof.
  destruct (complete args) eqn:E.
  - by apply prompt_complete.
  - by apply prompt_eof.
Qed.

(** X22.  The phrase prompt repeats on blank answers, printing its
    complaint for each, and takes the first answer that is not blank with
    the whitespace at its ends removed; if only blank answers come, it ends
    with [EOFError]. *)
Theorem X22_phrase_prompt_skips_blank_answers
  (skipped : list (list N)) (l : list N) (rest : list (list N))
  (out : list prompt_line) :
  Forall blank skipped ->
  (strip l <> [] ->
   ask_phrase (skipped ++ l :: rest) out
   = (inr (strip l),
      {| stdin := rest;
         stdout := out ++ flat_map (fun _ => [PAskPhrase; PPhraseEmpty]) skipped
                       ++ [PAskPhrase] |}))
  /\ ask_phrase skipped out
     = (inl EOFError,
        {| stdin := [];
           stdout := out ++ flat_map (fun _ => [PAskPhrase; PPhraseEmpty]) skipped
                         ++ [PAskPhrase] |}).
Proof.
  intros Hs. split.
  - intros Hl. by apply ask_phrase_run.
  - by apply ask_phrase_eof.
Qed.

Lemma X22_phrase_prompt_skips_blank_answers_witness :
  (strip (lit " (Z-Library) ") <> [] ->
   ask_phrase ([lit "   "; []] ++ lit " (Z-Library) " :: [lit "x"]) []
   = (inr (strip (lit " (Z-Library) ")),
      {| stdin := [lit "x"];
         stdout := [] ++ flat_map (fun _ => [PAskPhrase; PPhraseEmpty])
                           [lit "   "; []]
                      ++ [PAskPhrase] |}))
  /\ ask_phrase [lit "   "; []] []
     = (inl EOFError,
        {| stdin := [];
           stdout := [] ++ flat_map (fun _ => [PAskPhrase; PPhraseEmpty])
                             [lit "   "; []]
                        ++ [PAskPhrase] |}).
Proof.
  apply (X22_phrase_prompt_skips_blank_answers [lit "   "; []]
           (lit " (Z-Library) ") [lit "x"] []).
  repeat constructor.
Defined.

(** Past the gate: the target is a directory and either the run is forced
    or the target is not dangerous. *)
Lemma main_gate_open (db : unicode_db) (env : Env) (args : Args) (w : world)
  (root home : list (list N)) :
  env_resolve env (target args) = Some root ->
  root = [] \/ w_fs w !! root = Some Dir ->
  env_resolve env (env_home env) = Some home ->
  force args = true \/ is_dangerous_root env root home = false ->
  main db env args w = plan_and_execute db root args w.
Proof.
  intros Hroot Hdir Hhome Hopen. rewrite main_unfold, Hroot, Hhome.
  assert (bool_decide (root = []) || bool_decide (w_fs w !! root = Some Dir)
          = true) as ->.
  { destruct Hdir as [H|H]; rewrite (bool_decide_eq_true_2 _ H);
      [done|apply orb_true_r]. }
  cbn [negb].
  destruct Hopen as [->| ->]; [by rewrite andb_false_r|done].
Qed.

(** X23.  [--force] opens the gate: when the target resolves to a directory
    and the home directory resolves, a forced run goes on to the scan of the
    target even if the target is the file-system root or the home
    directory, and so does every run on a target that is neither. *)
Theorem X23_force_opens_the_gate (db : unicode_db) (env : Env) (args : Args)
  (w : world) (root home : list (list N)) :
  env_resolve env (target args) = Some root ->
  root = [] \/ w_fs w !! root = Some Dir ->
  env_resolve env (env_home env) = Some home ->
  force args = true \/ is_dangerous_root env root home = false ->
  main db env args w = plan_and_execute db root args w
  /\ exists evs,
       w_log (main db env args w).2
       = w_log w ++ EScan root (recursive args) :: evs.
Proof.
  intros Hroot Hdir Hhome Hopen.
  pose proof (main_gate_open db env args w root home Hroot Hdir Hhome Hopen) as E.
  split; [done|]. rewrite E. apply plan_and_execute_scans.
Qed.

Lemma X23_force_opens_the_gate_witness :
  main ascii_db home_env forced_args (start demo_fs)
  = plan_and_execute ascii_db books forced_args (start demo_fs)
  /\ exists evs,
       w_log (main ascii_db home_env forced_args (start demo_fs)).2
       = w_log (start demo_fs) ++ EScan books (recursive forced_args) :: evs.
Proof.
  apply (X23_force_opens_the_gate ascii_db home_env forced_args
           (start demo_fs) books books).
  - reflexivity.
  - right. by vm_compute.
  - reflexivity.
  - by left.
Defined.







(** X27.  In delete mode the matching pass and the plan agree in one
    direction: when the phrase is not empty and the planner returns, every
    file in scope whose name the pattern finds has an entry in the plan. *)
Theorem X27_matches_are_planned_in_delete_mode (db : unicode_db)
  (root : list (list N)) (recursive : bool) (phrase : list N)
  (ic loose : bool) (ignored : list N) (w : world)
  (plan : list (list (list N) * list (list N))) (n : nat) :
  (if loose then u_nfkc db phrase else phrase) <> [] ->
  (collect_changes db root recursive (build_pattern db phrase ic loose)
     (lit "delete") ignored w).1 = Ret (plan, n) ->
  Forall (fun p => p ∈ plan.*1)
    (filter (fun p => pattern_search db (build_pattern db phrase ic loose)
                        (name_of p) = true)
       (iter_files_of (w_fs w) root recursive)).
Proof.
  intros Hne. rewrite collect_changes_unfold.
  destruct (collect_loop _ _ _ _ _ _ _) as [[plan' n']|] eqn:H; [|done].
  simpl. intros [= -> ->].
  destruct (collect_loop_entries _ _ _ _ _ _ _ _ _ H) as (_ & new & E & _ & Hin).
  simpl in E. subst new.
  apply Forall_forall. intros p [Hs Hp]%list_elem_of_filter.
  apply Hin; [done|].
  destruct (propose_delete_shorter db phrase (name_of p) ic loose ignored Hne Hs)
    as (r & -> & _ & Hr).
  intros [= E]. by apply Hr.
Qed.

Lemma X27_matches_are_planned_in_delete_mode_witness :
  Forall (fun p => p ∈ [(tagged_a, untagged); (tagged_b, untagged)].*1)
    (filter (fun p => pattern_search ascii_db
                        (build_pattern ascii_db (lit "(Z-Library)") false false)
                        (name_of p) = true)
       (iter_files_of (w_fs (start demo_fs)) books false)).
Proof.
  apply (X27_matches_are_planned_in_delete_mode ascii_db books false
           (lit "(Z-Library)") false false [] (start demo_fs)
           [(tagged_a, untagged); (tagged_b, untagged)] 3).
  - discriminate.
  - by vm_compute.
Defined.
